(** * resale-radar: seen-item tracking and new-item detection

    A shallow embedding of [base_scraper.py], [scrapers/yahoo.py] and
    [main.py].  Python dictionaries used as maps become [gmap], sets of item
    ids become [gset string]; the scraper object's mutable history, the
    history file and the calls made to the outside (notification, file write,
    pacing sleep) are threaded through a small state-and-trace monad. *)

From stdpp Require Import gmap strings list fin_maps.
From Stdlib Require Import ZArith Lia Ascii.

Local Open Scope Z_scope.

(** ** Item records

    An item is the dictionary built by the site parser.  Every key may be
    absent, so each field is optional; [item.get(key, default)] is
    [default] on [None]. *)

Record Item := mkItem {
  title : option string;
  url : option string;
  price : option Z;
  item_id : option string
}.

(** Python truth value of a string ([if item_id:]) and of an integer
    ([if price and ...]). *)
Definition truthy_str (s : string) : bool :=
  match s with
  | EmptyString => false
  | String _ _ => true
  end.

Definition truthy_int (n : Z) : bool := negb (n =? 0).

(** ** The abstract methods of [BaseScraper]

    [search] talks to the network and is part of the environment of a pass
    (see [pass_env] below); [get_item_id] and [get_price] are the pure hooks a
    site implements. *)

Class Scraper := {
  get_item_id : Item -> string;
  get_price : Item -> Z
}.

(** [BaseScraper.get_price]: [item.get('price', 0)]. *)
Definition base_get_price (item : Item) : Z := default 0 (price item).

(** ** [scrapers/yahoo.py] *)

Module Yahoo.

(** The character class [[a-z0-9]]. *)
Definition is_id_char (c : ascii) : bool :=
  let n := nat_of_ascii c in
  ((97 <=? n)%nat && (n <=? 122)%nat) || ((48 <=? n)%nat && (n <=? 57)%nat).

(** [strip_prefix p s] is the rest of [s] after the literal [p], when [s]
    starts with [p]. *)
Fixpoint strip_prefix (p s : string) : option string :=
  match p, s with
  | EmptyString, _ => Some s
  | String a p', String b s' =>
      if Ascii.eqb a b then strip_prefix p' s' else None
  | String _ _, EmptyString => None
  end.

(** The greedy group [([a-z0-9]+)]: the longest run of id characters. *)
Fixpoint take_id (s : string) : string :=
  match s with
  | EmptyString => EmptyString
  | String c rest =>
      if is_id_char c then String c (take_id rest) else EmptyString
  end.

(** One attempt of the pattern [/auction/([a-z0-9]+)] at the head of [s]. *)
Definition match_here (s : string) : option string :=
  match strip_prefix "/auction/" s with
  | Some rest =>
      let g := take_id rest in if truthy_str g then Some g else None
  | None => None
  end.

(** [_extract_item_id_from_url]: [re.search] tries the pattern at every
    position from the left and returns group 1 of the first match, the
    empty string when there is none. *)
Fixpoint _extract_item_id_from_url (u : string) : string :=
  match match_here u with
  | Some g => g
  | None =>
      match u with
      | EmptyString => EmptyString
      | String _ rest => _extract_item_id_from_url rest
      end
  end.

(** [get_item_id]:
    [item.get('item_id', '') or self._extract_item_id_from_url(item.get('url', ''))]. *)
Definition get_item_id (item : Item) : string :=
  let stored := default EmptyString (item_id item) in
  if truthy_str stored then stored
  else _extract_item_id_from_url (default EmptyString (url item)).

(** [get_price]: [item.get('price', 0)]. *)
Definition get_price (item : Item) : Z := default 0 (price item).

#[global] Instance scraper : Scraper := Build_Scraper get_item_id get_price.

End Yahoo.

(** ** The history file

    [json.load] hands back a Python object.  Of that object the loader only
    uses [data.items()] and [set(v)], so a value is classified by what
    [set(v)] does with it.  Ids are strings (the field is declared
    [Dict[str, Set[str]]]); an iterable with a member that is neither a
    string nor unhashable is outside this model. *)

Inductive pyvalue :=
| VNotIterable             (* number, boolean, null: [set(v)] raises TypeError *)
| VUnhashable              (* a member is a list or an object: TypeError *)
| VIds (ids : list string). (* an iterable of strings *)

Inductive pydata :=
| DNotDict                 (* [data.items()] raises AttributeError *)
| DDict (entries : gmap string pyvalue).

Inductive history_file :=
| Absent                   (* [self._history_file.exists()] is false *)
| Unreadable               (* [open] or [json.load] raises: unreadable, empty,
                              cut short or otherwise not JSON *)
| Holds (data : pydata).

(** A call either returns a value or raises an exception. *)
Inductive outcome (A : Type) :=
| Returns (a : A)
| Raises.
Arguments Returns {A} a.
Arguments Raises {A}.

(** [open(self._history_file, "r")] followed by [json.load(f)]. *)
Definition json_load (f : history_file) : outcome pydata :=
  match f with
  | Holds data => Returns data
  | Absent | Unreadable => Raises
  end.

(** [set(v)] *)
Definition py_set (v : pyvalue) : option (gset string) :=
  match v with
  | VIds ids => Some (list_to_set ids)
  | VNotIterable | VUnhashable => None
  end.

(** [{k: set(v) for k, v in data.items()}]: raises as soon as one value
    does. *)
Definition sets_of_lists (data : pydata) : outcome (gmap string (gset string)) :=
  match data with
  | DNotDict => Raises
  | DDict entries =>
      if decide (map_Forall (fun _ v => is_Some (py_set v)) entries)
      then Returns (omap py_set entries)
      else Raises
  end.

(** [_load_seen_items], once [self._history_file.exists()] has answered; the
    check itself is in [load_seen_items_at] below. *)
Definition _load_seen_items (f : history_file) : gmap string (gset string) :=
  match f with
  | Absent => ∅
  | _ =>
      match json_load f with
      | Returns data =>
          match sets_of_lists data with
          | Returns seen => seen
          | Raises => ∅         (* except Exception: log, return {} *)
          end
      | Raises => ∅             (* except Exception: log, return {} *)
      end
  end.



(** [{k: list(v) for k, v in self._seen_items_by_keyword.items()}] *)
Definition serializable (seen : gmap string (gset string)) : pydata :=
  DDict ((fun ids => VIds (elements ids)) <$> seen).

(** What becomes of one [open(..., "w")] followed by [json.dump]. *)
Inductive write_outcome :=
| Written       (* both complete *)
| OpenFails     (* [open] raises; the file is not touched *)
| Interrupted.  (* [open] has truncated the file and the dump does not
                   complete *)

(** The file after [open(self._history_file, "w")] and [json.dump]. *)
Definition written_file (r : write_outcome) (old : history_file)
    (seen : gmap string (gset string)) : history_file :=
  match r with
  | Written => Holds (serializable seen)
  | OpenFails => old
  | Interrupted => Unreadable
  end.

(** ** State and effects

    [mem] is [self._seen_items_by_keyword], [disk] the history file.  A
    reference to one keyword's set (the [seen_items] of [run]) is modelled by
    the keyword under which the set lives in [mem]: reads and writes through
    the reference go to that entry. *)

Record world := mkWorld {
  mem : gmap string (gset string);
  disk : history_file
}.

Inductive event :=
| Notify (kw : string) (item : Item) (sent : bool)  (* [self.notify(item)] *)
| Add (kw : string) (id : string)                  (* [seen_items.add(id)] *)
| Save (r : write_outcome)                         (* [_save_seen_items()] *)
| Sleep                                            (* [time.sleep(2)] *)
| Failed (kw : string).                            (* the keyword's except branch *)

(** A program takes the world it starts in to its result, the world it
    leaves and the calls it made, in order. *)
Record Out (A : Type) := mkOut {
  val : A;
  post : world;
  emitted : list event
}.
Arguments mkOut {A} val post emitted.
Arguments val {A} o.
Arguments post {A} o.
Arguments emitted {A} o.

Definition Prog (A : Type) : Type := world -> Out A.

#[global] Instance Prog_ret : MRet Prog :=
  fun A a w => mkOut a w [].

#[global] Instance Prog_bind : MBind Prog :=
  fun A B f m w =>
    let r1 := m w in
    let r2 := f (val r1) (post r1) in
    mkOut (val r2) (post r2) (emitted r1 ++ emitted r2).

Definition emit (e : event) : Prog unit :=
  fun w => mkOut tt w [e].

(** [for x in l: body(x)] *)
Fixpoint for_each {A : Type} (l : list A) (body : A -> Prog unit) : Prog unit :=
  match l with
  | [] => mret tt
  | x :: rest => body x ;; for_each rest body
  end.

(** [_get_seen_items_for_keyword]: creates the empty set on first access and
    returns the set; the caller keeps [keyword] as the reference to it. *)
Definition _get_seen_items_for_keyword (keyword : string) : Prog (gset string) :=
  fun w =>
    let m :=
      match mem w !! keyword with
      | None => <[keyword := ∅]> (mem w)
      | Some _ => mem w
      end in
    mkOut (m !!! keyword) (mkWorld m (disk w)) [].

(** [item_id in seen_items] *)
Definition seen_contains (seen_items : string) (id : string) : Prog bool :=
  fun w => mkOut (bool_decide (id ∈ mem w !!! seen_items)) w [].

(** [seen_items.add(item_id)] *)
Definition seen_add (seen_items : string) (id : string) : Prog unit :=
  fun w =>
    mkOut tt
      (mkWorld (<[seen_items := {[id]} ∪ (mem w !!! seen_items)]> (mem w)) (disk w))
      [Add seen_items id].

(** [_save_seen_items]: a failure is logged and swallowed. *)
Definition _save_seen_items (r : write_outcome) : Prog unit :=
  fun w =>
    mkOut tt (mkWorld (mem w) (written_file r (disk w) (mem w))) [Save r].

(** ** One pass

    What the outside does during one call of [run]: the result of each
    [search], whether the push API accepts each message, and how the file
    write of each keyword's iteration ends.  The answers are taken per
    keyword: a keyword that is configured twice is searched twice by the
    code, and here both searches give the same answer. *)

Record pass_env := mkEnv {
  search : string -> outcome (list Item);
  send_line_notification : Item -> bool;
  write : string -> write_outcome
}.

(** The fields [__init__] reads from the configuration. *)
Record Settings := mkSettings {
  site_name : string;
  keywords : list string;
  min_price : Z;
  enabled : bool
}.

Section BaseScraper.

Context {scr : Scraper}.

(** [filter_new_items] *)
Fixpoint filter_new_items (self : Settings) (items : list Item)
    (seen_items : string) : Prog (list Item) :=
  match items with
  | [] => mret []
  | item :: rest =>
      let item_id := get_item_id item in
      unseen ← (if truthy_str item_id
                then known ← seen_contains seen_items item_id; mret (negb known)
                else mret false);
      let keep :=
        unseen &&
        (let price := get_price item in
         truthy_int price && (min_price self <=? price)) in
      new_items ← filter_new_items self rest seen_items;
      mret (if keep then item :: new_items else new_items)
  end.

(** [notify]: any failure of the delivery is caught and logged.  The trace
    keeps the keyword of the iteration that made the call. *)
Definition notify (env : pass_env) (keyword : string) (item : Item) : Prog unit :=
  emit (Notify keyword item (send_line_notification env item)).

(** The body of the first-run loop: record the id, notify nothing. *)
Definition remember_item (keyword : string) (item : Item) : Prog unit :=
  let item_id := get_item_id item in
  if truthy_str item_id then seen_add keyword item_id else mret tt.

(** The body of the loop over [new_items]: notify, then record the id. *)
Definition notify_item (env : pass_env) (keyword : string) (item : Item)
    : Prog unit :=
  notify env keyword item;;
  let item_id := get_item_id item in
  if truthy_str item_id then seen_add keyword item_id else mret tt.

(** The body of [for keyword in self.keywords]. *)
Definition run_keyword (env : pass_env) (self : Settings) (keyword : string)
    : Prog unit :=
  match search env keyword with
  | Raises => emit (Failed keyword)
  | Returns items =>
      seen_items ← _get_seen_items_for_keyword keyword;
      (if decide (seen_items = ∅) then
         for_each items (remember_item keyword);;
         _save_seen_items (write env keyword)
       else
         new_items ← filter_new_items self items keyword;
         match new_items with
         | [] => mret tt
         | _ :: _ =>
             for_each new_items (notify_item env keyword);;
             _save_seen_items (write env keyword)
         end);;
      emit Sleep
  end.

(** [run] *)
Definition run (env : pass_env) (self : Settings) : Prog unit :=
  if negb (enabled self) then mret tt
  else
    match keywords self with
    | [] => mret tt
    | _ :: _ => for_each (keywords self) (run_keyword env self)
    end.

End BaseScraper.

(** ** [main.py] *)

(** One source's entry of [config.json]; every field may be missing. *)
Record SourceConfig := mkSource {
  cfg_keywords : option (list string);
  cfg_min_price : option Z;
  cfg_enabled : option bool
}.

#[global] Instance SourceConfig_eq_dec : EqDecision SourceConfig.
Proof. solve_decision. Defined.

(** The history is read from the file into memory; this happens in
    [__init__] and nowhere else. *)
Definition reload : Prog unit :=
  fun w => mkOut tt (mkWorld (_load_seen_items (disk w)) (disk w)) [].

(** [BaseScraper.__init__] *)
Definition BaseScraper_init (site : string) (config : SourceConfig) : Prog Settings :=
  reload;;
  mret (mkSettings site
          (default [] (cfg_keywords config))
          (default 0 (cfg_min_price config))
          (default true (cfg_enabled config))).

(** [YahooScraper.__init__] *)
Definition YahooScraper_init (config : SourceConfig) : Prog Settings :=
  BaseScraper_init "yahoo" config.

(** [create_scrapers] *)
Definition create_scrapers (config : gmap string SourceConfig) : Prog (list Settings) :=
  match config !! "yahoo"%string with
  | Some source =>
      if default false (cfg_enabled source)
      then yahoo_scraper ← YahooScraper_init source; mret [yahoo_scraper]
      else mret []
  | None => mret []
  end.

(** [run_monitoring], given what [load_config] returned. *)
Definition run_monitoring (config : gmap string SourceConfig) (env : pass_env)
    : Prog unit :=
  if decide (config = ∅) then mret tt
  else
    scrapers ← create_scrapers config;
    match scrapers with
    | [] => mret tt
    | _ :: _ => for_each scrapers (fun scraper => run (scr := Yahoo.scraper) env scraper)
    end.



(** ** Sequences of passes

    A scraper object may be run again and again, and the process may be
    started anew, which builds the object again from the file. *)

Inductive step :=
| Pass (env : pass_env)
| Restart.

Section Sessions.

Context {scr : Scraper}.

Definition do_step (self : Settings) (s : step) : Prog unit :=
  match s with
  | Pass env => run env self
  | Restart => reload
  end.

Definition session (self : Settings) (steps : list step) : Prog unit :=
  for_each steps (do_step self).

End Sessions.

(** The notification attempts of a trace for one keyword and one id. *)
Definition notifies `{Scraper} (kw id : string) (e : event) : bool :=
  match e with
  | Notify kw' item _ =>
      bool_decide (kw' = kw) && bool_decide (get_item_id item = id)
  | _ => false
  end.

Definition attempts `{Scraper} (kw id : string) (tr : list event) : nat :=
  length (filter (fun e => notifies kw id e = true) tr).

(** The items of a [search] result whose id is [id]. *)
Definition occurrences `{Scraper} (id : string) (items : list Item) : nat :=
  length (filter (fun item => get_item_id item = id) items).

(** ** Vocabulary of the statements *)

(** The test [filter_new_items] applies to one item, against the contents
    [seen] of the set it was given. *)
Definition is_candidate `{Scraper} (self : Settings) (seen : gset string)
    (item : Item) : bool :=
  (truthy_str (get_item_id item) && negb (bool_decide (get_item_id item ∈ seen)))
  && (truthy_int (get_price item) && (min_price self <=? get_price item)).

(** The non-empty ids of a list of items, as a set. *)
Definition ids_of `{Scraper} (items : list Item) : gset string :=
  list_to_set (filter (fun id => truthy_str id = true) (get_item_id <$> items)).

(** What the notification loop of [run] leaves in the trace. *)
Definition notify_trace `{Scraper} (env : pass_env) (kw : string)
    (items : list Item) : list event :=
  items ≫= (fun item =>
    Notify kw item (send_line_notification env item) ::
    if truthy_str (get_item_id item) then [Add kw (get_item_id item)] else []).

Definition is_notify (e : event) : bool :=
  match e with
  | Notify _ _ _ => true
  | _ => false
  end.

(** The items one keyword iteration hands to [notify]. *)
Definition notified_items `{Scraper} (env : pass_env) (self : Settings)
    (kw : string) (w : world) : list Item :=
  match search env kw with
  | Raises => []
  | Returns items =>
      if decide (mem w !!! kw = ∅) then []
      else filter (fun item => is_candidate self (mem w !!! kw) item = true) items
  end.

Definition is_add (e : event) : bool :=
  match e with
  | Add _ _ => true
  | _ => false
  end.

(** In a trace, every notification attempt is directly followed by the
    recording of the item's id. *)
Definition marked_after `{Scraper} (tr : list event) : Prop :=
  forall pre kw item sent suf,
    tr = pre ++ Notify kw item sent :: suf ->
    exists suf', suf = Add kw (get_item_id item) :: suf'.

(** In a trace, every recording of an id directly follows a notification
    attempt for an item with that id, taken from [items]. *)
Definition notified_before `{Scraper} (items : list Item) (tr : list event) : Prop :=
  forall pre kw id suf,
    tr = pre ++ Add kw id :: suf ->
    exists pre' item sent,
      pre = pre' ++ [Notify kw item sent] /\ get_item_id item = id /\ item ∈ items.

(** The file gives back what is in memory. *)
Definition synced (w : world) : Prop := _load_seen_items (disk w) = mem w.

(** Every file write of the step completes. *)
Definition writes_ok (s : step) : Prop :=
  match s with
  | Pass env => forall kw, write env kw = Written
  | Restart => True
  end.

(** The persisted store round-trips: needed only where the history is read
    back, that is when the steps contain a restart. *)
Definition round_trips (steps : list step) (w : world) : Prop :=
  Restart ∈ steps -> synced w /\ Forall writes_ok steps.

Definition with_keywords (self : Settings) (kws : list string) : Settings :=
  mkSettings (site_name self) kws (min_price self) (enabled self).

(** ** Scenarios *)

Definition item (id : string) (p : Z) : Item :=
  mkItem (Some "t"%string) None (Some p) (Some id).

Definition env_of (kw : string) (items : list Item) : pass_env :=
  mkEnv (fun k => if bool_decide (k = kw) then Returns items else Raises)
        (fun _ => true) (fun _ => Written).

Definition camera : Settings := mkSettings "yahoo" ["camera"%string] 10 true.

Definition camera0 : Settings := mkSettings "yahoo" ["camera"%string] 0 true.

Definition seen_A : gmap string (gset string) := {[ "camera"%string := {[ "A"%string ]} ]}.

Definition seen_AB : gmap string (gset string) :=
  {[ "camera"%string := {[ "A"%string; "B"%string ]} ]}.

(** An item whose price the parser could not read. *)
Definition unpriced (id : string) : Item :=
  mkItem (Some "t"%string) None None (Some id).

(** The push API refuses every message. *)
Definition env_unsent (kw : string) (items : list Item) : pass_env :=
  mkEnv (fun k => if bool_decide (k = kw) then Returns items else Raises)
        (fun _ => false) (fun _ => Written).

Definition world_A : world := mkWorld seen_A (Holds (serializable seen_A)).

(** A pass that finds A and B, a restart, and a pass that finds B and C. *)
Definition two_passes : list step :=
  [Pass (env_unsent "camera" [item "A" 100; item "B" 80]);
   Restart;
   Pass (env_of "camera" [item "B" 80; item "C" 90])].

(** Three keywords; the search of the second one raises. *)
Definition env_abc : pass_env :=
  mkEnv (fun k =>
           if bool_decide (k = "a"%string) then Returns [item "A" 100]
           else if bool_decide (k = "c"%string) then Returns [item "C" 100]
           else Raises)
        (fun _ => true) (fun _ => Written).

Definition seen_ac : gmap string (gset string) :=
  {[ "a"%string := {[ "X"%string ]}; "c"%string := {[ "Y"%string ]} ]}.

(** A configuration whose source has keywords but does not say [enabled]. *)
Definition config_silent : gmap string SourceConfig :=
  {[ "yahoo"%string := mkSource (Some ["camera"%string]) (Some 0) None ]}.

Definition config_enabled : gmap string SourceConfig :=
  {[ "yahoo"%string := mkSource (Some ["camera"%string]) (Some 10) (Some true) ]}.

(** ** Parsing a search page ([scrapers/yahoo.py])

    Of the Python interpreter the price parser uses two things: which
    characters [\d] and [int] take as decimal digits, with their values, and
    the limit on the number of digits [int] converts (0: no limit).  The
    text of a price is a list of characters; the other strings only meet
    ASCII patterns and tests for emptiness, for which their bytes do. *)

Class Interpreter := {
  char : Type;
  decimal : char -> option nat;
  decimal_lt_10 : forall c d, decimal c = Some d -> (d < 10)%nat;
  max_str_digits : nat
}.

Module YahooParser.

Section Parser.

Context {py : Interpreter}.

Definition BASE_URL : string := "https://auctions.yahoo.co.jp".

(** [\d] *)
Definition is_decimal (c : char) : bool :=
  match decimal c with
  | Some _ => true
  | None => false
  end.

(** The number a string of decimal digits denotes. *)
Definition int_value (numbers : list char) : Z :=
  fold_left (fun acc c => acc * 10 + Z.of_nat (default 0%nat (decimal c))) numbers 0.

(** [int(numbers)] on a string of decimal digits: raises ValueError when the
    string has more digits than the limit. *)
Definition py_int (numbers : list char) : outcome Z :=
  if (0 <? max_str_digits)%nat && (max_str_digits <? length numbers)%nat
  then Raises
  else Returns (int_value numbers).

(** [_parse_price] *)
Definition _parse_price (price_text : list char) : Z :=
  let numbers := filter (fun c => is_decimal c = true) price_text in
  match (match numbers with
         | [] => Returns 0
         | _ :: _ => py_int numbers
         end) with
  | Returns n => n
  | Raises => 0              (* except: return 0 *)
  end.

(** An element as the parser reads it: [get_text(strip=True)] and the
    [href] attribute, if it has one. *)
Record Element := mkElement {
  text : string;
  href : option string
}.

(** What [_extract_item_info] finds in a product element. *)
Record Product := mkProduct {
  title_link : option Element;         (* [find('a', class_='Product__titleLink')] *)
  h3 : option Element;                 (* [find('h3')] *)
  price_value : option (list char);    (* [find('span', class_='Product__priceValue')] *)
  yen_span : option (list char)        (* [find('span', string=re.compile(r'¥|円'))] *)
}.

(** [href.startswith('/')] *)
Definition starts_with_slash (s : string) : bool :=
  match s with
  | String c _ => Ascii.eqb c "/"
  | EmptyString => false
  end.

(** [self.BASE_URL + href if href.startswith('/') else href] *)
Definition absolute (href : string) : string :=
  if starts_with_slash href then (BASE_URL ++ href)%string else href.

(** [_extract_item_info] *)
Definition _extract_item_info (product_element : Product) : option Item :=
  let title_elem :=
    match title_link product_element with
    | Some e => Some e
    | None => h3 product_element
    end in
  let item_title := text <$> title_elem in
  let item_url :=
    match title_elem with
    | Some e =>
        let h := default EmptyString (href e) in
        if truthy_str h then Some (absolute h) else None
    | None => None
    end in
  let price_elem :=
    match price_value product_element with
    | Some e => Some e
    | None => yen_span product_element
    end in
  let item_price := _parse_price <$> price_elem in
  let item_item_id :=
    match item_url with
    | Some u =>
        let id := Yahoo._extract_item_id_from_url u in
        if truthy_str id then Some id else None
    | None => None
    end in
  if truthy_str (default EmptyString item_title)
     && truthy_str (default EmptyString item_url)
  then Some (mkItem item_title item_url item_price item_item_id)
  else None.

(** A link as [_parse_alternative] reads it: its text, its [href] and the
    first string matching [¥\d+] under its parent, if any. *)
Record Link := mkLink {
  link_text : string;
  link_href : option string;
  parent_price : option (list char)
}.

(** The body of the loop of [_parse_alternative]; [None] is [continue]. *)
Definition link_item (link : Link) : option Item :=
  let t := link_text link in
  if negb (truthy_str t) then None
  else
    let h := default EmptyString (link_href link) in
    if negb (truthy_str h) then None
    else
      let u := absolute h in
      let id := Yahoo._extract_item_id_from_url u in
      let p :=
        match parent_price link with
        | Some price_elem => _parse_price price_elem
        | None => 0
        end in
      Some (mkItem (Some t) (Some u) (Some p) (Some id)).

(** [_parse_alternative], on the links whose [href] matches [/jp/auction/]. *)
Definition _parse_alternative (links : list Link) : list Item :=
  omap link_item (take 50 links).

(** What the queries of [parse] find in the page. *)
Record Page := mkPage {
  li_products : list Product;      (* [find_all('li', class_='Product')] *)
  div_products : list Product;     (* [find_all('div', class_='Product')] *)
  auction_links : list Link        (* [find_all('a', href=re.compile(r'/jp/auction/'))] *)
}.

(** [parse]; [Raises] stands for a failure of [BeautifulSoup(html, 'lxml')]. *)
Definition parse (html : outcome Page) : list Item :=
  match html with
  | Raises => []
  | Returns page =>
      let product_list :=
        match li_products page with
        | [] => div_products page
        | _ :: _ => li_products page
        end in
      let items := omap _extract_item_info product_list in
      match items with
      | [] => _parse_alternative (auction_links page)
      | _ :: _ => items
      end
  end.

(** The answer to the request of [search]. *)
Inductive response :=
| RequestFails                  (* [session.get] or [raise_for_status] raises *)
| Body (html : outcome Page).

(** [search] *)
Definition search (r : response) : list Item :=
  match r with
  | RequestFails => []
  | Body html => parse html
  end.

End Parser.

End YahooParser.

(** The environment of a pass of the Yahoo scraper: [search] is
    [YahooScraper.search] on what the site answers for the keyword. *)
Definition yahoo_env `{Interpreter} (site : string -> YahooParser.response)
    (sends : Item -> bool) (writes : string -> write_outcome) : pass_env :=
  mkEnv (fun keyword => Returns (YahooParser.search (site keyword))) sends writes.

(** An interpreter for texts of ASCII characters, with the digit limit of
    Python 3.11. *)
Definition ascii_decimal (c : ascii) : option nat :=
  let n := nat_of_ascii c in
  if (48 <=? n)%nat && (n <=? 57)%nat then Some (n - 48)%nat else None.

#[global] Instance ascii_interpreter : Interpreter.
Proof.
  refine (Build_Interpreter ascii ascii_decimal _ 4300).
  intros c d. unfold ascii_decimal.
  destruct (48 <=? nat_of_ascii c)%nat eqn:E1; [|discriminate].
  destruct (nat_of_ascii c <=? 57)%nat eqn:E2; [|discriminate].
  cbn. intros [= <-]. apply Nat.leb_le in E2. lia.
Defined.

(** ** Vocabulary of further statements *)

(** Every character of a string passes a test. *)
Fixpoint string_forall (P : ascii -> bool) (s : string) : bool :=
  match s with
  | EmptyString => true
  | String c rest => P c && string_forall P rest
  end.

(** A string does not start with a character that passes the test. *)
Definition stops (P : ascii -> bool) (s : string) : Prop :=
  match s with
  | EmptyString => True
  | String c _ => P c = false
  end.

(** The decimal digits of a text, as [_parse_price] keeps them. *)
Definition decimals `{Interpreter} (price_text : list char) : list char :=
  filter (fun c => YahooParser.is_decimal c = true) price_text.

(** The number of digits is within what [int] converts. *)
Definition convertible `{Interpreter} (price_text : list char) : Prop :=
  max_str_digits = 0%nat \/ (length (decimals price_text) <= max_str_digits)%nat.

Definition is_failed (e : event) : bool :=
  match e with
  | Failed _ => true
  | _ => false
  end.

Definition is_save (e : event) : bool :=
  match e with
  | Save _ => true
  | _ => false
  end.

Definition is_sleep (e : event) : bool :=
  match e with
  | Sleep => true
  | _ => false
  end.

(** The products [parse] goes through: the [div]s only when there is no
    [li]. *)
Definition product_list `{Interpreter} (page : YahooParser.Page)
    : list YahooParser.Product :=
  match YahooParser.li_products page with
  | [] => YahooParser.div_products page
  | _ :: _ => YahooParser.li_products page
  end.

(** Texts and pages for the examples. *)
Definition chars (s : string) : list (@char ascii_interpreter) :=
  String.list_ascii_of_string s.

(** A text of [n] digits. *)
Definition ones (n : nat) : list (@char ascii_interpreter) := replicate n "1"%char.

Definition page_of_products : YahooParser.Page :=
  YahooParser.mkPage
    [YahooParser.mkProduct
       (Some (YahooParser.mkElement "Camera" (Some "/jp/auction/x1234567"%string)))
       None (Some (chars "1,000 yen")) None;
     YahooParser.mkProduct None None (Some (chars "5")) None]
    []
    [YahooParser.mkLink "Lens" (Some "/jp/auction/k99"%string) None].

Definition page_of_links : YahooParser.Page :=
  YahooParser.mkPage [] []
    [YahooParser.mkLink "Lens" (Some "https://auctions.yahoo.co.jp/jp/auction/k99"%string)
       (Some (chars "now 2,500"));
     YahooParser.mkLink "" (Some "/jp/auction/k100"%string) None].

(** What every item that leaves the parser satisfies. *)
Definition well_formed (it : Item) : Prop :=
  exists t u,
    title it = Some t /\ t ≠ EmptyString
    /\ url it = Some u /\ u ≠ EmptyString
    /\ 0 <= Yahoo.get_price it
    /\ Yahoo.get_item_id it = Yahoo._extract_item_id_from_url u.

(** A site that fails for one keyword and answers with a page for the
    others. *)
Definition site_down_for (kw : string) (page : YahooParser.Page)
    : string -> YahooParser.response :=
  fun k => if bool_decide (k = kw) then YahooParser.RequestFails
           else YahooParser.Body (Returns page).

(** How often a kind of call occurs in a trace. *)
Definition count (kind : event -> bool) (tr : list event) : nat :=
  length (filter (fun e => kind e = true) tr).

(** No file write of the pass gets through. *)
Definition env_readonly (kw : string) (items : list Item) : pass_env :=
  mkEnv (fun k => if bool_decide (k = kw) then Returns items else Raises)
        (fun _ => true) (fun _ => OpenFails).

(** ** Sending a message ([utils/notify.py]) *)

Module LineNotify.

(** The two variables [os.getenv] is asked for. *)
Record environ := mkEnviron {
  LINE_CHANNEL_ACCESS_TOKEN : option string;
  LINE_USER_ID : option string
}.

(** One call of the push API: [LineBotApi(token).push_message(user_id,
    TextSendMessage(text=message))]. *)
Record push := mkPush {
  push_token : string;
  push_user : string;
  push_text : string
}.

Section Send.

(** The variables of the process and the answer of the API to a call. *)
Variable os_environ : environ.
Variable api : push -> outcome unit.

(** [send_line_notification]: the result and the calls made to the API. *)
Definition send_line_notification (message : string)
    (channel_access_token user_id : option string) : bool * list push :=
  let channel_access_token :=
    match channel_access_token with
    | None => LINE_CHANNEL_ACCESS_TOKEN os_environ
    | Some t => Some t
    end in
  let user_id :=
    match user_id with
    | None => LINE_USER_ID os_environ
    | Some u => Some u
    end in
  if negb (truthy_str (default EmptyString channel_access_token)) then (false, [])
  else if negb (truthy_str (default EmptyString user_id)) then (false, [])
  else
    let call :=
      mkPush (default EmptyString channel_access_token)
             (default EmptyString user_id) message in
    match api call with
    | Returns _ => (true, [call])
    | Raises => (false, [call])     (* both except branches *)
    end.

End Send.

End LineNotify.

(** [format_notification_message] is a method a site may override; it
    raises when a field of the item cannot be formatted. *)
Class Formatter := {
  format_notification_message : Item -> outcome string
}.

(** Whether [notify] gets the message of an item delivered. *)
Definition delivered `{Formatter} (os_environ : LineNotify.environ)
    (api : LineNotify.push -> outcome unit) (item : Item) : bool :=
  match format_notification_message item with
  | Returns message =>
      fst (LineNotify.send_line_notification os_environ api message None None)
  | Raises => false
  end.

(** The environment of a pass whose notifications go through
    [send_line_notification]. *)
Definition line_env `{Formatter} (searches : string -> outcome (list Item))
    (os_environ : LineNotify.environ) (api : LineNotify.push -> outcome unit)
    (writes : string -> write_outcome) : pass_env :=
  mkEnv searches (delivered os_environ api) writes.

(** ** Reading the configuration ([main.py]) *)

Inductive config_file :=
| NoConfig                   (* [CONFIG_FILE.exists()] is false *)
| BadConfig                  (* [open] or [json.load] raises *)
| Config (config : gmap string SourceConfig).

(** [load_config] *)
Definition load_config (f : config_file) : gmap string SourceConfig :=
  match f with
  | NoConfig => ∅
  | BadConfig => ∅            (* both except branches *)
  | Config config => config
  end.

(** The formatter of a site that overrides the method and insists on a
    title and a price.  It is not the default of [BaseScraper], which fills
    in what is missing; it serves the examples, whose items have both. *)
Definition plain_formatter : Formatter :=
  Build_Formatter (fun it =>
    match title it, price it with
    | Some t, Some _ => Returns t
    | _, _ => Raises
    end).

Definition no_token : LineNotify.environ := LineNotify.mkEnviron None (Some "U1"%string).

Definition with_token : LineNotify.environ :=
  LineNotify.mkEnviron (Some "T1"%string) (Some "U1"%string).

Set Warnings "-clear-no-such-hyp".

(** ** The monad *)

Lemma bind_run {A B : Type} (m : Prog A) (f : A -> Prog B) (w : world) :
  (m ≫= f) w =
  mkOut (val (f (val (m w)) (post (m w))))
        (post (f (val (m w)) (post (m w))))
        (emitted (m w) ++ emitted (f (val (m w)) (post (m w)))).
Proof. reflexivity. Qed.

Lemma ret_run {A : Type} (a : A) (w : world) :
  (mret a : Prog A) w = mkOut a w [].
Proof. reflexivity. Qed.

Lemma for_each_cons {A : Type} (x : A) (l : list A) (body : A -> Prog unit) w :
  for_each (x :: l) body w =
  mkOut tt (post (for_each l body (post (body x w))))
        (emitted (body x w) ++ emitted (for_each l body (post (body x w)))).
Proof.
  cbn [for_each]. rewrite bind_run.
  by destruct (val (for_each l body (post (body x w)))).
Qed.

Lemma for_each_nil {A : Type} (body : A -> Prog unit) w :
  for_each [] body w = mkOut tt w [].
Proof. reflexivity. Qed.

Lemma for_each_app {A : Type} (l1 l2 : list A) (body : A -> Prog unit) w :
  for_each (l1 ++ l2) body w =
  mkOut tt (post (for_each l2 body (post (for_each l1 body w))))
        (emitted (for_each l1 body w)
           ++ emitted (for_each l2 body (post (for_each l1 body w)))).
Proof.
  revert w. induction l1 as [|x l1 IH]; intros w.
  - cbn [app]. rewrite for_each_nil. cbn.
    by destruct (for_each l2 body w) as [[] ? ?].
  - cbn [app]. rewrite !for_each_cons, IH. cbn. by rewrite app_assoc.
Qed.

(** ** [filter_new_items] *)

Section Filter.

Context {scr : Scraper}.

(** The function reads the set and nothing else: it returns the items that
    pass the test, in the world it was called in, with no effect. *)
Lemma filter_new_items_run self items kw w :
  filter_new_items self items kw w =
  mkOut (filter (fun item => is_candidate self (mem w !!! kw) item = true) items) w [].
Proof.
  induction items as [|item items IH]; [reflexivity|].
  cbn [filter_new_items]. rewrite bind_run.
  assert (Hfst :
    (if truthy_str (get_item_id item)
     then known ← seen_contains kw (get_item_id item); mret (negb known)
     else mret false) w
    = mkOut (truthy_str (get_item_id item)
             && negb (bool_decide (get_item_id item ∈ mem w !!! kw))) w []).
  { destruct (truthy_str (get_item_id item)); reflexivity. }
  rewrite Hfst. cbn [val post emitted]. rewrite bind_run, IH.
  cbn [val post emitted app]. rewrite ret_run. f_equal.
  rewrite filter_cons. fold (is_candidate self (mem w !!! kw) item).
  destruct (is_candidate self (mem w !!! kw) item); reflexivity.
Qed.

Lemma is_candidate_true self seen item :
  is_candidate self seen item = true <->
  get_item_id item ≠ EmptyString /\ (get_item_id item ∉ seen)
  /\ get_price item ≠ 0 /\ min_price self <= get_price item.
Proof.
  unfold is_candidate, truthy_int.
  rewrite !andb_true_iff, !negb_true_iff, bool_decide_eq_false,
    Z.eqb_neq, Z.leb_le.
  assert (truthy_str (get_item_id item) = true <-> get_item_id item ≠ EmptyString)
    as ->; [|tauto].
  destruct (get_item_id item); cbn; split; congruence.
Qed.

Lemma elem_of_filter_new_items self items kw w item :
  item ∈ val (filter_new_items self items kw w) <->
  item ∈ items /\ get_item_id item ≠ EmptyString
  /\ (get_item_id item ∉ mem w !!! kw)
  /\ get_price item ≠ 0 /\ min_price self <= get_price item.
Proof.
  rewrite filter_new_items_run. cbn [val].
  rewrite list_elem_of_filter, is_candidate_true. tauto.
Qed.

End Filter.

(** ** The loops of [run] *)

Section Loops.

Context {scr : Scraper}.

Lemma ids_of_cons item items :
  ids_of (item :: items) =
  (if truthy_str (get_item_id item) then {[get_item_id item]} else ∅)
    ∪ ids_of items.
Proof.
  unfold ids_of. rewrite fmap_cons, filter_cons.
  destruct (truthy_str (get_item_id item)) eqn:E.
  - rewrite decide_True by done. by rewrite list_to_set_cons.
  - rewrite decide_False by congruence. set_solver.
Qed.

Lemma elem_of_ids_of id items :
  id ∈ ids_of items <->
  id ≠ EmptyString /\ exists item, item ∈ items /\ get_item_id item = id.
Proof.
  unfold ids_of.
  rewrite elem_of_list_to_set, list_elem_of_filter, list_elem_of_fmap.
  assert (truthy_str id = true <-> id ≠ EmptyString) as ->.
  { destruct id; cbn; split; congruence. }
  split; intros [? (item & ? & ?)]; (split; [done|]); exists item; done.
Qed.

Lemma remember_item_run kw item w :
  remember_item kw item w =
  if truthy_str (get_item_id item)
  then mkOut tt
         (mkWorld (<[kw := {[get_item_id item]} ∪ (mem w !!! kw)]> (mem w)) (disk w))
         [Add kw (get_item_id item)]
  else mkOut tt w [].
Proof. unfold remember_item. by destruct (truthy_str _). Qed.

Lemma notify_item_run env kw item w :
  notify_item env kw item w =
  mkOut tt
    (if truthy_str (get_item_id item)
     then mkWorld (<[kw := {[get_item_id item]} ∪ (mem w !!! kw)]> (mem w)) (disk w)
     else w)
    (Notify kw item (send_line_notification env item) ::
     if truthy_str (get_item_id item) then [Add kw (get_item_id item)] else []).
Proof.
  unfold notify_item. rewrite bind_run. unfold notify, emit. cbn [val post emitted].
  by destruct (truthy_str _).
Qed.

(** Adding to a set that is in the map, through its keyword. *)
Lemma insert_union_again kw (a b : gset string) (m : gmap string (gset string)) :
  <[kw := a ∪ (<[kw := b ∪ (m !!! kw)]> m !!! kw)]> (<[kw := b ∪ (m !!! kw)]> m)
  = <[kw := (b ∪ a) ∪ (m !!! kw)]> m.
Proof.
  rewrite insert_insert_eq, lookup_total_insert_eq. f_equal. set_solver.
Qed.

Lemma insert_present kw (m : gmap string (gset string)) :
  is_Some (m !! kw) -> <[kw := ∅ ∪ (m !!! kw)]> m = m.
Proof.
  intros [s Hs]. apply insert_id.
  rewrite (lookup_total_correct _ _ _ Hs), Hs. f_equal. set_solver.
Qed.

Lemma remember_loop kw items w :
  is_Some (mem w !! kw) ->
  for_each items (remember_item kw) w =
  mkOut tt
    (mkWorld (<[kw := ids_of items ∪ (mem w !!! kw)]> (mem w)) (disk w))
    (Add kw <$> filter (fun id => truthy_str id = true) (get_item_id <$> items)).
Proof.
  revert w. induction items as [|item items IH]; intros [m d] Hin; cbn [mem disk] in *.
  - rewrite for_each_nil. unfold ids_of. cbn. by rewrite insert_present.
  - rewrite for_each_cons, remember_item_run, ids_of_cons, fmap_cons, filter_cons.
    cbn [mem disk].
    destruct (truthy_str (get_item_id item)) eqn:E; cbn [post emitted].
    + rewrite decide_True by done. rewrite IH; cbn [mem disk post emitted].
      * by rewrite insert_union_again.
      * rewrite lookup_insert_eq. eauto.
    + rewrite decide_False by congruence. rewrite IH by done.
      cbn [mem disk post emitted app]. do 3 f_equal. set_solver.
Qed.

Lemma notify_loop env kw items w :
  is_Some (mem w !! kw) ->
  for_each items (notify_item env kw) w =
  mkOut tt
    (mkWorld (<[kw := ids_of items ∪ (mem w !!! kw)]> (mem w)) (disk w))
    (notify_trace env kw items).
Proof.
  revert w. induction items as [|item items IH]; intros [m d] Hin; cbn [mem disk] in *.
  - rewrite for_each_nil. unfold ids_of. cbn. by rewrite insert_present.
  - rewrite for_each_cons, notify_item_run, ids_of_cons.
    unfold notify_trace. rewrite bind_cons. fold (notify_trace env kw items).
    cbn [mem disk].
    destruct (truthy_str (get_item_id item)) eqn:E; cbn [post emitted].
    + rewrite IH; cbn [mem disk post emitted].
      * by rewrite insert_union_again.
      * rewrite lookup_insert_eq. eauto.
    + rewrite IH by done. cbn [mem disk post emitted app]. do 3 f_equal. set_solver.
Qed.

End Loops.

(** ** One keyword of one pass *)

Section RunKeyword.

Context {scr : Scraper}.

Lemma lookup_total_absent kw (m : gmap string (gset string)) :
  m !! kw = None -> m !!! kw = ∅.
Proof. intros Hn. by rewrite lookup_total_alt, Hn. Qed.

Lemma nonempty_present kw (m : gmap string (gset string)) :
  m !!! kw ≠ ∅ -> is_Some (m !! kw).
Proof.
  intros Hne. destruct (m !! kw) eqn:E; [eauto|].
  by rewrite lookup_total_absent in Hne.
Qed.

Lemma _get_seen_items_for_keyword_val kw w :
  val (_get_seen_items_for_keyword kw w) = mem w !!! kw.
Proof.
  unfold _get_seen_items_for_keyword. cbn [val].
  destruct (mem w !! kw) eqn:E; [done|].
  by rewrite lookup_total_insert_eq, lookup_total_absent.
Qed.

Lemma _get_seen_items_for_keyword_present kw w :
  is_Some (mem w !! kw) -> post (_get_seen_items_for_keyword kw w) = w.
Proof.
  intros [s Hs]. unfold _get_seen_items_for_keyword. cbn [post].
  rewrite Hs. by destruct w.
Qed.

Lemma run_keyword_raises env self kw w :
  search env kw = Raises ->
  run_keyword env self kw w = mkOut tt w [Failed kw].
Proof. intros Hs. unfold run_keyword. by rewrite Hs. Qed.

(** First run for the keyword: every non-empty id is recorded, the history
    is written, nothing is notified. *)
Lemma run_keyword_bootstrap env self kw items w :
  search env kw = Returns items ->
  mem w !!! kw = ∅ ->
  run_keyword env self kw w =
  mkOut tt
    (mkWorld (<[kw := ids_of items]> (mem w))
       (written_file (write env kw) (disk w) (<[kw := ids_of items]> (mem w))))
    ((Add kw <$> filter (fun id => truthy_str id = true) (get_item_id <$> items))
       ++ [Save (write env kw); Sleep]).
Proof.
  intros Hs Hempty. unfold run_keyword. rewrite Hs, bind_run.
  rewrite _get_seen_items_for_keyword_val, decide_True by done.
  rewrite !bind_run.
  set (w0 := post (_get_seen_items_for_keyword kw w)).
  assert (Hw0 : is_Some (mem w0 !! kw)).
  { unfold w0, _get_seen_items_for_keyword. cbn.
    destruct (mem w !! kw) eqn:E; [eauto|]. rewrite lookup_insert_eq. eauto. }
  assert (Hm : <[kw := ids_of items ∪ (mem w0 !!! kw)]> (mem w0)
               = <[kw := ids_of items]> (mem w)).
  { unfold w0, _get_seen_items_for_keyword. cbn.
    destruct (mem w !! kw) eqn:E.
    - rewrite Hempty. f_equal. set_solver.
    - rewrite lookup_total_insert_eq, insert_insert_eq. f_equal. set_solver. }
  rewrite remember_loop by done. cbn [val post emitted mem disk].
  unfold _save_seen_items, emit. cbn [val post emitted mem disk].
  rewrite Hm.
  change (disk w0) with (disk w).
  change (emitted (_get_seen_items_for_keyword kw w)) with (@nil event).
  cbn [app]. by rewrite <- app_assoc.
Qed.

(** Later runs: the items that pass the filter are notified and recorded,
    and the history is written only if there was one. *)
Lemma run_keyword_incremental env self kw items w :
  search env kw = Returns items ->
  mem w !!! kw ≠ ∅ ->
  run_keyword env self kw w =
  match filter (fun item => is_candidate self (mem w !!! kw) item = true) items with
  | [] => mkOut tt w [Sleep]
  | new_items =>
      mkOut tt
        (mkWorld (<[kw := ids_of new_items ∪ (mem w !!! kw)]> (mem w))
           (written_file (write env kw) (disk w)
              (<[kw := ids_of new_items ∪ (mem w !!! kw)]> (mem w))))
        (notify_trace env kw new_items ++ [Save (write env kw); Sleep])
  end.
Proof.
  intros Hs Hne. pose proof (nonempty_present _ _ Hne) as Hin.
  unfold run_keyword. rewrite Hs, bind_run.
  rewrite _get_seen_items_for_keyword_val, decide_False by done.
  rewrite _get_seen_items_for_keyword_present by done.
  rewrite !bind_run, filter_new_items_run. cbn [val post emitted].
  destruct (filter _ items) as [|item new_items] eqn:E; [reflexivity|].
  rewrite bind_run, notify_loop by done.
  unfold _save_seen_items, emit. cbn [val post emitted mem disk].
  f_equal. cbn. by rewrite <- app_assoc.
Qed.

End RunKeyword.

(** ** The store round-trips *)

Lemma load_serializable (seen : gmap string (gset string)) :
  _load_seen_items (Holds (serializable seen)) = seen.
Proof.
  unfold _load_seen_items, json_load, serializable, sets_of_lists.
  rewrite decide_True.
  - apply map_eq. intros kw. rewrite lookup_omap, lookup_fmap.
    destruct (seen !! kw) as [ids|]; [|done]. cbn.
    by rewrite list_to_set_elements_L.
  - intros kw v. rewrite lookup_fmap, fmap_Some. intros (ids & _ & ->). cbn. eauto.
Qed.

Lemma written_synced (seen : gmap string (gset string)) (old : history_file) :
  synced (mkWorld seen (written_file Written old seen)).
Proof. unfold synced. cbn. apply load_serializable. Qed.

(** ** Counting notification attempts *)

Section Attempts.

Context {scr : Scraper}.

Lemma attempts_app kw id (t1 t2 : list event) :
  attempts kw id (t1 ++ t2) = (attempts kw id t1 + attempts kw id t2)%nat.
Proof. unfold attempts. by rewrite filter_app, length_app. Qed.

Lemma attempts_no_notify kw id (tr : list event) :
  Forall (fun e => is_notify e = false) tr -> attempts kw id tr = 0%nat.
Proof.
  unfold attempts. induction 1 as [|e tr He _ IH]; [done|].
  rewrite filter_cons, decide_False; [done|].
  destruct e; cbn in *; congruence.
Qed.

Lemma attempts_cons kw id (e : event) (tr : list event) :
  attempts kw id (e :: tr) =
  ((if notifies kw id e then 1 else 0) + attempts kw id tr)%nat.
Proof.
  unfold attempts. rewrite filter_cons.
  destruct (notifies kw id e); [rewrite decide_True by done|rewrite decide_False by done];
    done.
Qed.

Lemma occurrences_cons id item (items : list Item) :
  occurrences id (item :: items) =
  ((if bool_decide (get_item_id item = id) then 1 else 0) + occurrences id items)%nat.
Proof.
  unfold occurrences. rewrite filter_cons.
  case_bool_decide; [rewrite decide_True by done|rewrite decide_False by done]; done.
Qed.

Lemma attempts_notify_trace env k items kw id :
  attempts kw id (notify_trace env k items) =
  if bool_decide (k = kw) then occurrences id items else 0%nat.
Proof.
  induction items as [|item items IH].
  - by case_bool_decide.
  - unfold notify_trace. rewrite bind_cons. fold (notify_trace env k items).
    rewrite <- app_comm_cons, attempts_cons, attempts_app, IH, occurrences_cons.
    assert (attempts kw id
              (if truthy_str (get_item_id item)
               then [Add k (get_item_id item)] else []) = 0%nat) as ->.
    { by destruct (truthy_str _). }
    cbn [notifies]. case_bool_decide; cbn [andb]; [|done].
    by case_bool_decide.
Qed.

Lemma occurrences_filter_le id (P : Item -> Prop) `{!forall x, Decision (P x)}
    (items : list Item) :
  (occurrences id (filter P items) <= occurrences id items)%nat.
Proof.
  unfold occurrences. induction items as [|item items IH]; [done|].
  rewrite !filter_cons. repeat case_decide; cbn [length];
    rewrite ?filter_cons, ?decide_True, ?decide_False by done; cbn [length]; lia.
Qed.

Lemma occurrences_pos id (items : list Item) :
  (0 < occurrences id items)%nat ->
  exists item, item ∈ items /\ get_item_id item = id.
Proof.
  unfold occurrences. intros Hpos.
  destruct (filter _ items) as [|item rest] eqn:E; [cbn in Hpos; lia|].
  assert (item ∈ filter (fun item => get_item_id item = id) items) as Hin
    by (rewrite E; left).
  apply list_elem_of_filter in Hin. naive_solver.
Qed.

Lemma occurrences_zero id (items : list Item) :
  (forall item, item ∈ items -> get_item_id item ≠ id) ->
  occurrences id items = 0%nat.
Proof.
  intros Hno. destruct (occurrences id items) eqn:E; [done|].
  destruct (occurrences_pos id items) as (item & ? & ?); [lia|]. naive_solver.
Qed.

End Attempts.

(** ** What one keyword iteration notifies and records *)

Ltac run_keyword_cases env self k w :=
  let items := fresh "items" in
  let Hsearch := fresh "Hsearch" in
  let Hempty := fresh "Hempty" in
  destruct (search env k) as [items|] eqn:Hsearch;
  [ destruct (decide (mem w !!! k = ∅)) as [Hempty|Hempty];
    [ rewrite (run_keyword_bootstrap env self k items w Hsearch Hempty)
    | rewrite (run_keyword_incremental env self k items w Hsearch Hempty) ]
  | rewrite (run_keyword_raises env self k w Hsearch) ].

Section KeywordFacts.

Context {scr : Scraper}.

Lemma no_notify_in_adds kw (ids : list string) :
  Forall (fun e => is_notify e = false) ((Add kw <$> ids) ++ [Save Written; Sleep])
  /\ forall r, Forall (fun e => is_notify e = false) ((Add kw <$> ids) ++ [Save r; Sleep]).
Proof.
  assert (forall r, Forall (fun e => is_notify e = false)
                      ((Add kw <$> ids) ++ [Save r; Sleep])) as Hall.
  { intros r. apply Forall_app. split.
    - apply Forall_fmap, Forall_true. done.
    - repeat constructor. }
  split; [apply Hall|exact Hall].
Qed.

Lemma attempts_run_keyword env self k w kw id :
  attempts kw id (emitted (run_keyword env self k w)) =
  if bool_decide (k = kw) then occurrences id (notified_items env self k w)
  else 0%nat.
Proof.
  unfold notified_items. run_keyword_cases env self k w; cbn [emitted].
  - rewrite attempts_no_notify by apply no_notify_in_adds. by case_bool_decide.
  - destruct (filter _ items) as [|item new_items] eqn:E; cbn [emitted].
    + by case_bool_decide.
    + rewrite attempts_app, attempts_notify_trace.
      rewrite (attempts_no_notify _ _ [_; _]) by repeat constructor. lia.
  - by case_bool_decide.
Qed.

Lemma run_keyword_mono env self k w kw :
  mem w !!! kw ⊆ mem (post (run_keyword env self k w)) !!! kw.
Proof.
  run_keyword_cases env self k w; cbn [post mem]; [| |done].
  - destruct (decide (k = kw)) as [->|Hk].
    + rewrite Hempty. set_solver.
    + by rewrite lookup_total_insert_ne.
  - destruct (filter _ items) as [|item new_items]; cbn [post mem]; [done|].
    destruct (decide (k = kw)) as [->|Hk].
    + rewrite lookup_total_insert_eq. set_solver.
    + by rewrite lookup_total_insert_ne.
Qed.

Lemma run_keyword_records env self k w :
  ids_of (notified_items env self k w)
    ⊆ mem (post (run_keyword env self k w)) !!! k.
Proof.
  unfold notified_items. run_keyword_cases env self k w; cbn [post mem].
  - unfold ids_of. cbn. set_solver.
  - destruct (filter _ items) as [|item new_items]; cbn [post mem].
    + unfold ids_of. cbn. set_solver.
    + rewrite lookup_total_insert_eq. set_solver.
  - unfold ids_of. cbn. set_solver.
Qed.

Lemma run_keyword_synced env self k w :
  synced w -> write env k = Written ->
  synced (post (run_keyword env self k w)).
Proof.
  intros Hsync Hwrite.
  run_keyword_cases env self k w; cbn [post]; [| |done].
  - rewrite Hwrite. apply written_synced.
  - destruct (filter _ items) as [|item new_items]; cbn [post]; [done|].
    rewrite Hwrite. apply written_synced.
Qed.

(** A notified item has a non-empty id that was not in the set. *)
Lemma notified_items_spec env self k w item :
  item ∈ notified_items env self k w ->
  get_item_id item ≠ EmptyString /\ (get_item_id item ∉ mem w !!! k).
Proof.
  unfold notified_items. destruct (search env k) as [items|]; [|by intros ?%elem_of_nil].
  case_decide; [by intros ?%elem_of_nil|].
  rewrite list_elem_of_filter, is_candidate_true. tauto.
Qed.

Lemma notified_items_occurrences env self k w id items :
  search env k = Returns items ->
  (occurrences id (notified_items env self k w) <= occurrences id items)%nat.
Proof.
  intros Hs. unfold notified_items. rewrite Hs.
  case_decide; [cbn; lia|]. apply occurrences_filter_le.
Qed.

Lemma seen_not_notified env self k w id :
  id ∈ mem w !!! k -> occurrences id (notified_items env self k w) = 0%nat.
Proof.
  intros Hin. apply occurrences_zero. intros item Hitem Heq.
  apply notified_items_spec in Hitem as [_ Hnot]. by rewrite Heq in Hnot.
Qed.

Lemma notified_recorded env self k w id :
  (0 < occurrences id (notified_items env self k w))%nat ->
  id ∈ mem (post (run_keyword env self k w)) !!! k.
Proof.
  intros (item & Hitem & Heq)%occurrences_pos.
  apply run_keyword_records, elem_of_ids_of.
  apply notified_items_spec in Hitem as Hspec. naive_solver.
Qed.

End KeywordFacts.

(** ** Whole passes and sequences of passes *)

Section Passes.

Context {scr : Scraper}.

Lemma keywords_mono env self ks w kw :
  mem w !!! kw ⊆ mem (post (for_each ks (run_keyword env self) w)) !!! kw.
Proof.
  revert w. induction ks as [|k ks IH]; intros w; [done|].
  rewrite for_each_cons. cbn [post].
  etrans; [apply (run_keyword_mono env self k)|apply IH].
Qed.

Lemma keywords_synced env self ks w :
  synced w -> (forall k, write env k = Written) ->
  synced (post (for_each ks (run_keyword env self) w)).
Proof.
  intros Hsync Hwrite. revert w Hsync.
  induction ks as [|k ks IH]; intros w Hsync; [done|].
  rewrite for_each_cons. cbn [post]. by apply IH, run_keyword_synced.
Qed.

Lemma keywords_seen_quiet env self ks w kw id :
  id ∈ mem w !!! kw ->
  attempts kw id (emitted (for_each ks (run_keyword env self) w)) = 0%nat.
Proof.
  revert w. induction ks as [|k ks IH]; intros w Hin; [done|].
  rewrite for_each_cons. cbn [emitted].
  rewrite attempts_app, attempts_run_keyword, IH.
  - case_bool_decide as Hk; [subst k|done]. by rewrite seen_not_notified.
  - by apply run_keyword_mono.
Qed.

Lemma keywords_once env self ks w kw id :
  (forall items, search env kw = Returns items -> (occurrences id items <= 1)%nat) ->
  (attempts kw id (emitted (for_each ks (run_keyword env self) w)) <= 1)%nat
  /\ ((0 < attempts kw id (emitted (for_each ks (run_keyword env self) w)))%nat ->
       id ∈ mem (post (for_each ks (run_keyword env self) w)) !!! kw).
Proof.
  intros Hdup. revert w. induction ks as [|k ks IH]; intros w.
  - rewrite for_each_nil. cbn. split; [lia|]. unfold attempts. cbn. lia.
  - rewrite for_each_cons. cbn [emitted post].
    rewrite attempts_app, attempts_run_keyword.
    set (w1 := post (run_keyword env self k w)).
    destruct (IH w1) as [Hle Hin].
    case_bool_decide as Hk; [subst k|by cbn].
    destruct (occurrences id (notified_items env self kw w)) as [|n] eqn:Hocc; [by cbn|].
    assert (id ∈ mem w1 !!! kw) as Hrec.
    { apply notified_recorded. lia. }
    rewrite keywords_seen_quiet by done.
    assert (n = 0%nat) as ->.
    { destruct (search env kw) as [items|] eqn:Hs.
      - pose proof (notified_items_occurrences env self kw w id items Hs).
        specialize (Hdup items eq_refl). lia.
      - unfold notified_items in Hocc. rewrite Hs in Hocc. cbn in Hocc. lia. }
    split; [lia|]. intros _. by apply keywords_mono.
Qed.

Lemma run_unfold env self w :
  run env self w =
  if enabled self then for_each (keywords self) (run_keyword env self) w
  else mkOut tt w [].
Proof.
  unfold run. destruct (enabled self); cbn [negb]; [|done].
  by destruct (keywords self).
Qed.

Lemma run_mono env self w kw :
  mem w !!! kw ⊆ mem (post (run env self w)) !!! kw.
Proof.
  rewrite run_unfold. destruct (enabled self); [apply keywords_mono|done].
Qed.

Lemma run_synced env self w :
  synced w -> (forall k, write env k = Written) -> synced (post (run env self w)).
Proof.
  rewrite run_unfold. destruct (enabled self); [apply keywords_synced|done].
Qed.

Lemma run_seen_quiet env self w kw id :
  id ∈ mem w !!! kw -> attempts kw id (emitted (run env self w)) = 0%nat.
Proof.
  rewrite run_unfold. destruct (enabled self); [apply keywords_seen_quiet|done].
Qed.

Lemma run_once env self w kw id :
  (forall items, search env kw = Returns items -> (occurrences id items <= 1)%nat) ->
  (attempts kw id (emitted (run env self w)) <= 1)%nat
  /\ ((0 < attempts kw id (emitted (run env self w)))%nat ->
       id ∈ mem (post (run env self w)) !!! kw).
Proof.
  rewrite run_unfold. destruct (enabled self); [apply keywords_once|].
  intros _. unfold attempts. cbn. split; lia.
Qed.

Lemma session_cons self s steps w :
  session self (s :: steps) w =
  mkOut tt (post (session self steps (post (do_step self s w))))
    (emitted (do_step self s w)
       ++ emitted (session self steps (post (do_step self s w)))).
Proof. apply for_each_cons. Qed.

Lemma reload_synced w : synced w -> post (reload w) = w.
Proof. destruct w as [m d]. unfold synced, reload. cbn. by intros ->. Qed.

Lemma round_trips_tail self s steps w :
  round_trips (s :: steps) w ->
  round_trips steps (post (do_step self s w)).
Proof.
  intros Hrt Hin. destruct Hrt as [Hsync Hall]; [by right|].
  apply Forall_cons in Hall as [Hs Hall]. split; [|done].
  destruct s as [env|]; cbn [do_step].
  - by apply run_synced.
  - by rewrite reload_synced.
Qed.

Lemma round_trips_restart steps w : round_trips (Restart :: steps) w -> synced w.
Proof. intros Hrt. destruct Hrt as [Hsync _]; [by left|done]. Qed.

Lemma session_seen_quiet self steps w kw id :
  round_trips steps w ->
  id ∈ mem w !!! kw ->
  attempts kw id (emitted (session self steps w)) = 0%nat.
Proof.
  revert w. induction steps as [|s steps IH]; intros w Hrt Hin; [done|].
  rewrite session_cons. cbn [emitted]. rewrite attempts_app.
  pose proof (round_trips_tail self _ _ _ Hrt) as Hrt'.
  destruct s as [env|]; cbn [do_step] in *.
  - rewrite run_seen_quiet by done. rewrite IH; [done|done|by apply run_mono].
  - apply round_trips_restart in Hrt.
    rewrite IH; [done|done|by rewrite reload_synced].
Qed.

Lemma session_once self steps w kw id :
  round_trips steps w ->
  (forall env items, Pass env ∈ steps -> search env kw = Returns items ->
                     (occurrences id items <= 1)%nat) ->
  (attempts kw id (emitted (session self steps w)) <= 1)%nat.
Proof.
  revert w. induction steps as [|s steps IH]; intros w Hrt Hdup.
  { unfold attempts. cbn. lia. }
  rewrite session_cons. cbn [emitted]. rewrite attempts_app.
  pose proof (round_trips_tail self _ _ _ Hrt) as Hrt'.
  assert (forall env items, Pass env ∈ steps -> search env kw = Returns items ->
                            (occurrences id items <= 1)%nat) as Hdup'.
  { intros env items Hin. apply Hdup. by right. }
  specialize (IH _ Hrt' Hdup').
  destruct s as [env|]; cbn [do_step] in *;
    [|change (attempts kw id (emitted (reload w))) with 0%nat; lia].
  destruct (run_once env self w kw id) as [Hle Hrec].
  { intros items. apply Hdup. by left. }
  destruct (attempts kw id (emitted (run env self w))) as [|n]; [lia|].
  rewrite session_seen_quiet; [lia|done|apply Hrec; lia].
Qed.

End Passes.

(** ** The order of notifying and recording *)

Section Order.

Context {scr : Scraper}.

Lemma marked_after_quiet (tr : list event) :
  Forall (fun e => is_notify e = false) tr -> marked_after tr.
Proof.
  intros Hall pre kw item sent suf ->.
  apply Forall_app in Hall as [_ Hall]. apply Forall_cons in Hall as [Hn _].
  discriminate Hn.
Qed.

Lemma marked_after_tail (e : event) (tr : list event) :
  marked_after (e :: tr) -> marked_after tr.
Proof.
  intros Hm pre kw item sent suf ->.
  apply (Hm (e :: pre) kw item sent suf). reflexivity.
Qed.

Lemma marked_after_app (t1 t2 : list event) :
  marked_after t1 -> marked_after t2 -> marked_after (t1 ++ t2).
Proof.
  intros H1 H2. induction t1 as [|e t1 IH]; [exact H2|].
  intros [|e' pre] kw item sent suf Heq; cbn in Heq.
  - injection Heq as -> <-.
    destruct (H1 [] kw item sent t1 eq_refl) as [suf' ->]. cbn. eauto.
  - injection Heq as <- Heq.
    apply (IH (marked_after_tail _ _ H1) pre kw item sent suf Heq).
Qed.

Lemma notify_trace_cons env kw item items :
  notify_trace env kw (item :: items) =
  Notify kw item (send_line_notification env item) ::
  (if truthy_str (get_item_id item) then [Add kw (get_item_id item)] else [])
    ++ notify_trace env kw items.
Proof. reflexivity. Qed.

Lemma notify_trace_marked env kw items rest :
  Forall (fun item => truthy_str (get_item_id item) = true) items ->
  Forall (fun e => is_notify e = false) rest ->
  marked_after (notify_trace env kw items ++ rest).
Proof.
  intros Hids Hrest. induction Hids as [|item items Hid _ IH].
  - by apply marked_after_quiet.
  - rewrite notify_trace_cons, Hid. cbn [app].
    intros [|e1 [|e2 pre]] k it sent suf Heq; cbn in Heq.
    + injection Heq as <- <- <- <-. eauto.
    + injection Heq as _ Heq. discriminate Heq.
    + injection Heq as _ _ Heq. by apply (IH pre k it sent suf).
Qed.

Lemma notify_trace_preceded env kw items rest :
  Forall (fun e => is_add e = false) rest ->
  notified_before items (notify_trace env kw items ++ rest).
Proof.
  intros Hrest. induction items as [|item items IH].
  - intros pre k id suf Heq. cbn in Heq. subst rest.
    apply Forall_app in Hrest as [_ Hrest]. apply Forall_cons in Hrest as [Hn _].
    discriminate Hn.
  - assert (forall pre k id suf,
              notify_trace env kw items ++ rest = pre ++ Add k id :: suf ->
              exists pre' it sent,
                pre = pre' ++ [Notify k it sent] /\ get_item_id it = id
                /\ it ∈ item :: items) as IH'.
    { intros pre k id suf Heq. destruct (IH pre k id suf Heq) as (pre' & it & sent & ? & ? & ?).
      exists pre', it, sent. split_and!; [done|done|by right]. }
    rewrite notify_trace_cons.
    destruct (truthy_str (get_item_id item)); cbn [app].
    + intros [|e1 [|e2 pre]] k id suf Heq; cbn in Heq.
      * discriminate Heq.
      * injection Heq as <- <- <- <-.
        exists [], item, (send_line_notification env item).
        split_and!; [done|done|by left].
      * injection Heq as <- <- Heq.
        destruct (IH' pre k id suf Heq) as (pre' & it & sent & -> & ? & ?).
        exists (Notify kw item (send_line_notification env item)
                  :: Add kw (get_item_id item) :: pre'), it, sent. done.
    + intros [|e1 pre] k id suf Heq; cbn in Heq.
      * discriminate Heq.
      * injection Heq as <- Heq.
        destruct (IH' pre k id suf Heq) as (pre' & it & sent & -> & ? & ?).
        exists (Notify kw item (send_line_notification env item) :: pre'), it, sent.
        done.
Qed.

Lemma candidates_have_ids self seen items :
  Forall (fun item => truthy_str (get_item_id item) = true)
    (filter (fun item => is_candidate self seen item = true) items).
Proof.
  apply Forall_forall. intros item [Hc _]%list_elem_of_filter.
  unfold is_candidate in Hc. by repeat (apply andb_true_iff in Hc as [Hc _]).
Qed.

Lemma run_keyword_marked env self k w :
  marked_after (emitted (run_keyword env self k w)).
Proof.
  run_keyword_cases env self k w; cbn [emitted].
  - apply marked_after_quiet, no_notify_in_adds.
  - pose proof (candidates_have_ids self (mem w !!! k) items) as Hids.
    destruct (filter _ items) as [|item new_items]; cbn [emitted].
    + apply marked_after_quiet. by repeat constructor.
    + apply notify_trace_marked; [done|by repeat constructor].
  - apply marked_after_quiet. by repeat constructor.
Qed.

Lemma run_marked env self w : marked_after (emitted (run env self w)).
Proof.
  rewrite run_unfold. destruct (enabled self); [|by apply marked_after_quiet].
  revert w. induction (keywords self) as [|k ks IH]; intros w.
  - by apply marked_after_quiet.
  - rewrite for_each_cons. cbn [emitted].
    apply marked_after_app; [apply run_keyword_marked|apply IH].
Qed.

Lemma attempts_elem kw item sent (tr : list event) :
  Notify kw item sent ∈ tr -> (0 < attempts kw (get_item_id item) tr)%nat.
Proof.
  intros (pre & suf & ->)%list_elem_of_split.
  rewrite attempts_app, attempts_cons. cbn [notifies].
  rewrite !bool_decide_eq_true_2 by done. cbn. lia.
Qed.

Lemma keywords_attempted_recorded env self ks w kw id :
  (0 < attempts kw id (emitted (for_each ks (run_keyword env self) w)))%nat ->
  id ∈ mem (post (for_each ks (run_keyword env self) w)) !!! kw.
Proof.
  revert w. induction ks as [|k ks IH]; intros w.
  - unfold attempts. cbn. lia.
  - rewrite for_each_cons. cbn [emitted post].
    rewrite attempts_app, attempts_run_keyword. intros Hpos.
    destruct (decide (0 < attempts kw id
                (emitted (for_each ks (run_keyword env self)
                            (post (run_keyword env self k w)))))%nat) as [Hlater|Hnot].
    + by apply IH.
    + case_bool_decide as Hk; [subst k|lia].
      apply keywords_mono, notified_recorded. lia.
Qed.

Lemma run_attempted_recorded env self w kw id :
  (0 < attempts kw id (emitted (run env self w)))%nat ->
  id ∈ mem (post (run env self w)) !!! kw.
Proof.
  rewrite run_unfold. destruct (enabled self); [apply keywords_attempted_recorded|].
  unfold attempts. cbn. lia.
Qed.

End Order.

(** ** The filter *)

(** C4.  Whatever the items, the set and the minimum price, no item whose id
    is already in the set is returned by [filter_new_items], whatever its
    price. *)
Theorem seen_items_are_filtered_out {scr : Scraper} (self : Settings)
    (items : list Item) (kw : string) (w : world) :
  Forall (fun item => get_item_id item ∉ mem w !!! kw)
    (val (filter_new_items self items kw w)).
Proof.
  apply Forall_forall. intros item Hin.
  apply elem_of_filter_new_items in Hin. tauto.
Qed.

(** The statement above is not empty: an unseen item does come back while a
    seen one with a higher price does not. *)
Example seen_items_are_filtered_out_example :
  val (filter_new_items camera [item "A" 500; item "B" 80] "camera" (mkWorld seen_A Absent))
  = [item "B" 80].
Proof. vm_compute. reflexivity. Qed.

(** C2, as the claim states it, fails: with [min_price = 0], an item whose
    price could not be read (so [get_price] is 0) and whose id is new is not
    a candidate. *)
Lemma unpriced_item_is_no_candidate_at_min_price_zero :
  ~ (unpriced "B" ∈ val (filter_new_items camera0 [unpriced "B"] "camera"
                           (mkWorld seen_A Absent))
     <-> (get_item_id (unpriced "B") ∉ mem (mkWorld seen_A Absent) !!! "camera"%string)
         /\ min_price camera0 <= get_price (unpriced "B")).
Proof.
  intros [_ Hback].
  assert (unpriced "B" ∈ val (filter_new_items camera0 [unpriced "B"] "camera"
                                (mkWorld seen_A Absent))) as Hin.
  { apply Hback. split; [|by vm_compute].
    apply (bool_decide_unpack _). by vm_compute. }
  vm_compute in Hin. by apply elem_of_nil in Hin.
Qed.

(** C2 (amended).  For a fresh item with a non-empty id, the item is returned
    by [filter_new_items] exactly when its id is not in the set, its price is
    not zero and its price is at least [min_price]; an item whose price is 0
    (the default when the price cannot be read) is never returned, whatever
    [min_price] is. *)
Theorem candidate_iff_unseen_priced_and_not_below_min {scr : Scraper}
    (self : Settings) (items : list Item) (kw : string) (w : world) (item : Item) :
  item ∈ items ->
  get_item_id item ≠ EmptyString ->
  (item ∈ val (filter_new_items self items kw w) <->
     (get_item_id item ∉ mem w !!! kw) /\ get_price item ≠ 0
     /\ min_price self <= get_price item)
  /\ (get_price item = 0 -> item ∉ val (filter_new_items self items kw w)).
Proof.
  intros Hin Hid. split.
  - rewrite elem_of_filter_new_items. tauto.
  - intros Hzero Hnew. apply elem_of_filter_new_items in Hnew. tauto.
Qed.

Lemma candidate_iff_unseen_priced_and_not_below_min_witness :
  item "B" 80 ∈ [item "A" 100; item "B" 80]
  /\ get_item_id (item "B" 80) ≠ EmptyString
  /\ (item "B" 80 ∈ val (filter_new_items camera [item "A" 100; item "B" 80] "camera"
                           (mkWorld seen_A Absent)) <->
        (get_item_id (item "B" 80) ∉ mem (mkWorld seen_A Absent) !!! "camera"%string)
        /\ get_price (item "B" 80) ≠ 0
        /\ min_price camera <= get_price (item "B" 80)).
Proof.
  assert (item "B" 80 ∈ [item "A" 100; item "B" 80]) as Hin by (right; left).
  assert (get_item_id (item "B" 80) ≠ EmptyString) as Hid by (vm_compute; discriminate).
  split_and!; [exact Hin|exact Hid|].
  exact (proj1 (candidate_iff_unseen_priced_and_not_below_min
                  camera [item "A" 100; item "B" 80] "camera"
                  (mkWorld seen_A Absent) (item "B" 80) Hin Hid)).
Defined.

(** The price boundary: an item priced exactly [min_price] passes, one priced
    one below does not. *)
Example price_boundary :
  val (filter_new_items camera [item "B" 10; item "C" 9] "camera" (mkWorld seen_A Absent))
  = [item "B" 10].
Proof. vm_compute. reflexivity. Qed.

(** C10.  [filter_new_items] only reads the set: the world after the call is
    the world before it and nothing is emitted; what it returns is a sublist
    of its input, in the input's order.  In an incremental iteration of
    [run], every id that is recorded is recorded right after the
    notification attempt for an item with that id, an item taken from the
    filter's result. *)
Theorem filter_new_items_only_reads {scr : Scraper} (self : Settings)
    (items : list Item) (kw : string) (w : world) :
  post (filter_new_items self items kw w) = w
  /\ emitted (filter_new_items self items kw w) = []
  /\ val (filter_new_items self items kw w) `sublist_of` items
  /\ forall env pre kw' id suf,
       search env kw = Returns items ->
       mem w !!! kw ≠ ∅ ->
       emitted (run_keyword env self kw w) = pre ++ Add kw' id :: suf ->
       exists pre' item sent,
         pre = pre' ++ [Notify kw' item sent] /\ get_item_id item = id
         /\ item ∈ val (filter_new_items self items kw w).
Proof.
  rewrite filter_new_items_run. cbn [val post emitted].
  split_and!; [done|done|apply sublist_filter|].
  intros env pre kw' id suf Hs Hne.
  rewrite (run_keyword_incremental env self kw items w Hs Hne).
  destruct (filter _ items) as [|item new_items]; cbn [emitted].
  - intros Heq. destruct pre as [|e [|e' pre]]; discriminate Heq.
  - apply notify_trace_preceded. by repeat constructor.
Qed.

Lemma filter_new_items_only_reads_witness :
  search (env_of "camera" [item "A" 100; item "B" 80]) "camera" =
    Returns [item "A" 100; item "B" 80]
  /\ mem (mkWorld seen_A Absent) !!! "camera"%string ≠ (∅ : gset string)
  /\ exists pre' it sent,
       [Notify "camera" (item "B" 80) true] = pre' ++ [Notify "camera" it sent]
       /\ get_item_id it = "B"%string
       /\ it ∈ val (filter_new_items camera [item "A" 100; item "B" 80] "camera"
                     (mkWorld seen_A Absent)).
Proof.
  assert (search (env_of "camera" [item "A" 100; item "B" 80]) "camera" =
            Returns [item "A" 100; item "B" 80]) as Hs by reflexivity.
  assert (mem (mkWorld seen_A Absent) !!! "camera"%string ≠ (∅ : gset string)) as Hne.
  { intros Heq. vm_compute in Heq. discriminate Heq. }
  split_and!; [exact Hs|exact Hne|].
  apply (proj2 (proj2 (proj2 (filter_new_items_only_reads camera
           [item "A" 100; item "B" 80] "camera" (mkWorld seen_A Absent))))
           (env_of "camera" [item "A" 100; item "B" 80])
           [Notify "camera" (item "B" 80) true] "camera" "B"
           [Save Written; Sleep] Hs Hne).
  vm_compute. reflexivity.
Defined.

(** ** The first run for a keyword *)

(** C3.  When the keyword's set is empty at the time of the call (the
    keyword is new, or its set was empty), whatever the fresh items are, no
    notification is attempted, and right after the iteration the keyword's
    set holds exactly the non-empty ids of the fresh items. *)
Theorem first_run_records_without_notifying {scr : Scraper} (env : pass_env)
    (self : Settings) (kw : string) (items : list Item) (w : world) :
  search env kw = Returns items ->
  mem w !!! kw = ∅ ->
  Forall (fun e => is_notify e = false) (emitted (run_keyword env self kw w))
  /\ mem (post (run_keyword env self kw w)) !! kw = Some (ids_of items)
  /\ forall id,
       id ∈ mem (post (run_keyword env self kw w)) !!! kw <->
       id ≠ EmptyString /\ exists item, item ∈ items /\ get_item_id item = id.
Proof.
  intros Hs Hempty. rewrite (run_keyword_bootstrap env self kw items w Hs Hempty).
  cbn [emitted post mem]. split_and!.
  - apply no_notify_in_adds.
  - apply lookup_insert_eq.
  - intros id. rewrite lookup_total_insert_eq. apply elem_of_ids_of.
Qed.

Lemma first_run_records_without_notifying_witness :
  search (env_of "camera" [item "A" 100; unpriced ""; item "B" 50]) "camera" =
    Returns [item "A" 100; unpriced ""; item "B" 50]
  /\ mem (mkWorld ∅ Absent) !!! "camera"%string = (∅ : gset string)
  /\ Forall (fun e => is_notify e = false)
       (emitted (run_keyword (env_of "camera" [item "A" 100; unpriced ""; item "B" 50])
                   camera0 "camera" (mkWorld ∅ Absent)))
  /\ mem (post (run_keyword (env_of "camera" [item "A" 100; unpriced ""; item "B" 50])
                  camera0 "camera" (mkWorld ∅ Absent))) !! "camera"%string
     = Some (ids_of [item "A" 100; unpriced ""; item "B" 50]).
Proof.
  assert (search (env_of "camera" [item "A" 100; unpriced ""; item "B" 50]) "camera" =
            Returns [item "A" 100; unpriced ""; item "B" 50]) as Hs by reflexivity.
  assert (mem (mkWorld ∅ Absent) !!! "camera"%string = (∅ : gset string)) as Hempty
    by reflexivity.
  pose proof (first_run_records_without_notifying _ camera0 _ _ _ Hs Hempty)
    as (Hquiet & Hset & _).
  split_and!; [exact Hs|exact Hempty|exact Hquiet|exact Hset].
Defined.

(** The scenario of the specification: A and B are recorded, nothing is
    notified. *)
Example scenario_bootstrap :
  emitted (run (env_of "camera" [item "A" 100; item "B" 50]) camera0 (mkWorld ∅ Absent))
  = [Add "camera" "A"; Add "camera" "B"; Save Written; Sleep]
  /\ mem (post (run (env_of "camera" [item "A" 100; item "B" 50]) camera0
                  (mkWorld ∅ Absent))) = seen_AB.
Proof. vm_compute. split; reflexivity. Qed.

(** The incremental scenario: B is notified and recorded, C is below the
    minimum price and is neither. *)
Example scenario_incremental :
  emitted (run (env_of "camera" [item "A" 100; item "B" 80; item "C" 5]) camera
             (mkWorld seen_A Absent))
  = [Notify "camera" (item "B" 80) true; Add "camera" "B"; Save Written; Sleep]
  /\ mem (post (run (env_of "camera" [item "A" 100; item "B" 80; item "C" 5]) camera
                  (mkWorld seen_A Absent))) = seen_AB.
Proof. vm_compute. split; reflexivity. Qed.

(** ** A keyword whose search fails *)

Lemma run_keyword_with_keywords {scr : Scraper} env self ks k w :
  run_keyword env (with_keywords self ks) k w = run_keyword env self k w.
Proof.
  destruct (search env k) as [items|] eqn:Hs.
  - destruct (decide (mem w !!! k = ∅)) as [Hempty|Hne].
    + by rewrite !(run_keyword_bootstrap env _ k items w Hs Hempty).
    + by rewrite !(run_keyword_incremental env _ k items w Hs Hne).
  - by rewrite !run_keyword_raises.
Qed.

Lemma for_each_with_keywords {scr : Scraper} env self ks l w :
  for_each l (run_keyword env (with_keywords self ks)) w
  = for_each l (run_keyword env self) w.
Proof.
  revert w. induction l as [|k l IH]; intros w; [done|].
  by rewrite !for_each_cons, run_keyword_with_keywords, !IH.
Qed.

(** C5.  When the search of one keyword raises, the keywords before and
    after it are processed to the end, and the pass leaves the same world and
    the same trace (but for the one logged failure) as the pass over the list
    without that keyword. *)
Theorem failing_keyword_does_not_disturb_the_others {scr : Scraper}
    (env : pass_env) (self : Settings) (before after : list string) (k : string)
    (w : world) :
  enabled self = true ->
  search env k = Raises ->
  run env (with_keywords self (before ++ k :: after)) w =
    mkOut tt
      (post (run env (with_keywords self after)
               (post (run env (with_keywords self before) w))))
      (emitted (run env (with_keywords self before) w)
         ++ Failed k
         :: emitted (run env (with_keywords self after)
                       (post (run env (with_keywords self before) w))))
  /\ run env (with_keywords self (before ++ after)) w =
    mkOut tt
      (post (run env (with_keywords self after)
               (post (run env (with_keywords self before) w))))
      (emitted (run env (with_keywords self before) w)
         ++ emitted (run env (with_keywords self after)
                       (post (run env (with_keywords self before) w)))).
Proof.
  intros Hen Hk. rewrite !run_unfold. cbn [with_keywords enabled keywords].
  rewrite Hen.
  rewrite !for_each_with_keywords. split.
  - rewrite for_each_app, for_each_cons, run_keyword_raises by done. done.
  - by rewrite for_each_app.
Qed.

Lemma failing_keyword_does_not_disturb_the_others_witness :
  enabled camera = true
  /\ search env_abc "b" = Raises
  /\ emitted (run env_abc (with_keywords camera ["a"; "b"; "c"]%string)
                (mkWorld seen_ac Absent))
     = [Notify "a" (item "A" 100) true; Add "a" "A"; Save Written; Sleep;
        Failed "b";
        Notify "c" (item "C" 100) true; Add "c" "C"; Save Written; Sleep]
  /\ post (run env_abc (with_keywords camera ["a"; "b"; "c"]%string)
             (mkWorld seen_ac Absent))
     = post (run env_abc (with_keywords camera ["a"; "c"]%string)
               (mkWorld seen_ac Absent)).
Proof.
  assert (enabled camera = true) as Hen by reflexivity.
  assert (search env_abc "b" = Raises) as Hb by reflexivity.
  destruct (failing_keyword_does_not_disturb_the_others env_abc camera
              ["a"%string] ["c"%string] "b" (mkWorld seen_ac Absent) Hen Hb)
    as [Hwith Hwithout].
  cbn [app] in Hwith, Hwithout.
  split_and!; [exact Hen|exact Hb| |].
  - rewrite Hwith. vm_compute. reflexivity.
  - rewrite Hwith, Hwithout. reflexivity.
Defined.

(** ** Recording is by detection, not by delivery *)

(** C6.  Whatever the push API answers, each notification attempt of a pass
    is directly followed by the recording of the item's id in the keyword's
    set; the id is in the set when the pass ends, and no later pass attempts
    to notify it again (when the history is read back from the file in
    between, provided the store round-trips). *)
Theorem notified_id_is_recorded_whatever_the_delivery {scr : Scraper}
    (env : pass_env) (self : Settings) (w : world) (kw : string) (item : Item)
    (sent : bool) (pre suf : list event) :
  emitted (run env self w) = pre ++ Notify kw item sent :: suf ->
  (exists suf', suf = Add kw (get_item_id item) :: suf')
  /\ get_item_id item ∈ mem (post (run env self w)) !!! kw
  /\ forall steps,
       round_trips steps (post (run env self w)) ->
       attempts kw (get_item_id item)
         (emitted (session self steps (post (run env self w)))) = 0%nat.
Proof.
  intros Htr.
  assert (get_item_id item ∈ mem (post (run env self w)) !!! kw) as Hrec.
  { apply run_attempted_recorded, (attempts_elem kw item sent).
    rewrite Htr. apply elem_of_app. right. left. }
  split_and!.
  - exact (run_marked env self w pre kw item sent suf Htr).
  - exact Hrec.
  - intros steps Hrt. by apply session_seen_quiet.
Qed.

Lemma notified_id_is_recorded_whatever_the_delivery_witness :
  emitted (run (env_unsent "camera" [item "A" 100; item "B" 80]) camera
             (mkWorld seen_A Absent))
  = [] ++ Notify "camera" (item "B" 80) false
          :: [Add "camera" "B"; Save Written; Sleep]
  /\ get_item_id (item "B" 80)
       ∈ mem (post (run (env_unsent "camera" [item "A" 100; item "B" 80]) camera
                      (mkWorld seen_A Absent))) !!! "camera"%string
  /\ attempts "camera" (get_item_id (item "B" 80))
       (emitted (session camera [Pass (env_of "camera" [item "B" 80; item "C" 90])]
                   (post (run (env_unsent "camera" [item "A" 100; item "B" 80]) camera
                            (mkWorld seen_A Absent))))) = 0%nat.
Proof.
  assert (emitted (run (env_unsent "camera" [item "A" 100; item "B" 80]) camera
                     (mkWorld seen_A Absent))
          = [] ++ Notify "camera" (item "B" 80) false
                  :: [Add "camera" "B"; Save Written; Sleep]) as Htr
    by (vm_compute; reflexivity).
  destruct (notified_id_is_recorded_whatever_the_delivery _ _ _ _ _ _ _ _ Htr)
    as (_ & Hrec & Hlater).
  split_and!; [exact Htr|exact Hrec|].
  apply Hlater. intros Hin. apply list_elem_of_singleton in Hin. discriminate Hin.
Defined.

(** ** At most one notification per id *)

(** C1, as the claim states it, fails: when the same new id occurs twice in
    the items of one search, both items pass the filter, which looks only at
    the history of earlier passes, and both are notified. *)
Lemma same_id_twice_in_one_search_is_notified_twice :
  ~ (attempts "camera" "B"
       (emitted (run (env_of "camera" [item "B" 80; item "B" 80]) camera
                   (mkWorld seen_A Absent))) <= 1)%nat.
Proof. vm_compute. lia. Qed.

(** C1 (amended).  For every keyword and every sequence of passes and
    restarts (the store round-tripping where the history is read back): once
    an id is in the keyword's set, no later pass attempts to notify it; and
    an id that occurs at most once in the items of each search of the
    keyword is notified at most once in total. *)
Theorem seen_id_is_never_notified_again {scr : Scraper} (self : Settings)
    (steps : list step) (w : world) (kw id : string) :
  round_trips steps w ->
  (id ∈ mem w !!! kw ->
   attempts kw id (emitted (session self steps w)) = 0%nat)
  /\ ((forall env items, Pass env ∈ steps -> search env kw = Returns items ->
                         (occurrences id items <= 1)%nat) ->
      (attempts kw id (emitted (session self steps w)) <= 1)%nat).
Proof.
  intros Hrt. split.
  - by apply session_seen_quiet.
  - by apply session_once.
Qed.

Lemma seen_id_is_never_notified_again_witness :
  round_trips two_passes world_A
  /\ attempts "camera" "A" (emitted (session camera two_passes world_A)) = 0%nat
  /\ (attempts "camera" "B" (emitted (session camera two_passes world_A)) <= 1)%nat.
Proof.
  assert (round_trips two_passes world_A) as Hrt.
  { intros _. split; [by vm_compute|]. repeat constructor. }
  split_and!; [exact Hrt| |].
  - apply (proj1 (seen_id_is_never_notified_again camera two_passes world_A
                    "camera" "A" Hrt)).
    apply (bool_decide_unpack _). by vm_compute.
  - apply (proj2 (seen_id_is_never_notified_again camera two_passes world_A
                    "camera" "B" Hrt)).
    intros env items Hin Hs. unfold two_passes in Hin.
    apply elem_of_cons in Hin as [Heq|Hin].
    { injection Heq as ->. vm_compute in Hs. injection Hs as <-. vm_compute. lia. }
    apply elem_of_cons in Hin as [Heq|Hin]; [discriminate Heq|].
    apply list_elem_of_singleton in Hin. injection Hin as ->.
    vm_compute in Hs. injection Hs as <-. vm_compute. lia.
Defined.

(** The count in the witness is exactly one: B is notified in the first pass
    although the delivery fails, and not again after the restart. *)
Example two_passes_notify_B_once :
  attempts "camera" "B" (emitted (session camera two_passes world_A)) = 1%nat.
Proof. vm_compute. reflexivity. Qed.

(** ** Loading the history *)

(** Once the existence check has answered, [_load_seen_items] returns a
    mapping whatever happens: the empty one when the file is missing, when
    opening or parsing it raises, and when the parsed content raises while
    being turned into sets.  A keyword that a loaded file does not mention
    has no history: its first access creates and returns the empty set. *)
Lemma load_tolerates_missing_and_malformed_files :
  _load_seen_items Absent = ∅
  /\ (forall f, json_load f = Raises -> _load_seen_items f = ∅)
  /\ (forall data, sets_of_lists data = Raises -> _load_seen_items (Holds data) = ∅)
  /\ (forall entries kw m,
        entries !! kw = None ->
        mem (post (reload (mkWorld m (Holds (DDict entries))))) !! kw = None
        /\ val (_get_seen_items_for_keyword kw
                  (post (reload (mkWorld m (Holds (DDict entries)))))) = ∅
        /\ mem (post (_get_seen_items_for_keyword kw
                        (post (reload (mkWorld m (Holds (DDict entries)))))))
             !! kw = Some ∅).
Proof.
  split_and!.
  - reflexivity.
  - intros f Hf. unfold _load_seen_items. rewrite Hf. by destruct f.
  - intros data Hd. unfold _load_seen_items. cbn [json_load]. by rewrite Hd.
  - intros entries kw m Hkw.
    assert (mem (post (reload (mkWorld m (Holds (DDict entries))))) !! kw = None)
      as Hnone.
    { unfold reload, _load_seen_items, json_load, sets_of_lists. cbn [post mem disk].
      case_decide; [|done]. by rewrite lookup_omap, Hkw. }
    split_and!; [exact Hnone| |].
    + by rewrite _get_seen_items_for_keyword_val, lookup_total_alt, Hnone.
    + unfold _get_seen_items_for_keyword. cbn [post mem]. rewrite Hnone.
      apply lookup_insert_eq.
Qed.


(** What was saved comes back from a load, keyword by keyword and id by
    id. *)
Example load_after_save :
  _load_seen_items (disk (post (_save_seen_items Written (mkWorld seen_AB Absent))))
  = seen_AB.
Proof. apply load_serializable. Qed.

(** ** Saving the history *)

(** C8, as the claim states it, fails: a save that is interrupted after the
    file was opened for writing leaves neither the old nor the new state. *)
Lemma interrupted_save_leaves_neither_old_nor_new :
  ~ (disk (post (_save_seen_items Interrupted
                   (mkWorld seen_AB (Holds (serializable seen_A)))))
       = Holds (serializable seen_A)
     \/ disk (post (_save_seen_items Interrupted
                      (mkWorld seen_AB (Holds (serializable seen_A)))))
       = Holds (serializable seen_AB)).
Proof. intros [Heq|Heq]; discriminate Heq. Qed.

(** C8 (amended).  [_save_seen_items] rewrites the history file in place and
    never touches the sets in memory.  When the write completes, the file
    holds the whole mapping and a load gives it back; when the file cannot be
    opened, the old file is left as it was; when the write is interrupted
    after the file was opened, the file is left cut short, and a load reads
    it as the empty mapping. *)
Theorem save_rewrites_the_file_in_place (r : write_outcome) (w : world) :
  mem (post (_save_seen_items r w)) = mem w
  /\ (r = Written ->
      disk (post (_save_seen_items r w)) = Holds (serializable (mem w))
      /\ _load_seen_items (disk (post (_save_seen_items r w))) = mem w)
  /\ (r = OpenFails -> disk (post (_save_seen_items r w)) = disk w)
  /\ (r = Interrupted ->
      disk (post (_save_seen_items r w)) = Unreadable
      /\ _load_seen_items (disk (post (_save_seen_items r w))) = ∅).
Proof.
  unfold _save_seen_items. cbn [post mem disk].
  split_and!; [done| | |]; intros ->; cbn [written_file]; [|done|done].
  split; [done|apply load_serializable].
Qed.

Lemma save_rewrites_the_file_in_place_witness :
  Written = Written
  /\ _load_seen_items (disk (post (_save_seen_items Written
                                     (mkWorld seen_AB (Holds (serializable seen_A))))))
     = seen_AB
  /\ Interrupted = Interrupted
  /\ _load_seen_items (disk (post (_save_seen_items Interrupted
                                     (mkWorld seen_AB (Holds (serializable seen_A))))))
     = ∅.
Proof.
  destruct (save_rewrites_the_file_in_place Written
              (mkWorld seen_AB (Holds (serializable seen_A)))) as (_ & Hdone & _ & _).
  destruct (save_rewrites_the_file_in_place Interrupted
              (mkWorld seen_AB (Holds (serializable seen_A)))) as (_ & _ & _ & Hcut).
  split_and!; [reflexivity|exact (proj2 (Hdone eq_refl))
              |reflexivity|exact (proj2 (Hcut eq_refl))].
Defined.

(** ** Which sources are monitored *)

(** C9.  A source whose configuration does not say [enabled] is not
    monitored: [create_scrapers] builds no scraper for it (the history is not
    even read) and [run_monitoring] does nothing. *)
Theorem source_without_enabled_is_not_monitored
    (config : gmap string SourceConfig) (source : SourceConfig)
    (env : pass_env) (w : world) :
  config !! "yahoo"%string = Some source ->
  cfg_enabled source = None ->
  create_scrapers config w = mkOut [] w []
  /\ run_monitoring config env w = mkOut tt w [].
Proof.
  intros Hsrc Hen.
  assert (create_scrapers config w = mkOut [] w []) as Hnone.
  { unfold create_scrapers. by rewrite Hsrc, Hen. }
  split; [exact Hnone|].
  unfold run_monitoring. case_decide; [done|].
  rewrite bind_run, Hnone. reflexivity.
Qed.

Lemma source_without_enabled_is_not_monitored_witness :
  config_silent !! "yahoo"%string = Some (mkSource (Some ["camera"%string]) (Some 0) None)
  /\ cfg_enabled (mkSource (Some ["camera"%string]) (Some 0) None) = None
  /\ run_monitoring config_silent (env_of "camera" [item "A" 100]) world_A
     = mkOut tt world_A [].
Proof.
  assert (config_silent !! "yahoo"%string
          = Some (mkSource (Some ["camera"%string]) (Some 0) None)) as Hsrc
    by (vm_compute; reflexivity).
  assert (cfg_enabled (mkSource (Some ["camera"%string]) (Some 0) None) = None) as Hen
    by reflexivity.
  split_and!; [exact Hsrc|exact Hen|].
  exact (proj2 (source_without_enabled_is_not_monitored config_silent _
                  (env_of "camera" [item "A" 100]) world_A Hsrc Hen)).
Defined.

(** With [enabled] set, the same source is monitored: a pass of
    [run_monitoring] is a restart followed by a pass of [run]. *)
Lemma run_monitoring_enabled (config : gmap string SourceConfig)
    (source : SourceConfig) (env : pass_env) (w : world) :
  config !! "yahoo"%string = Some source ->
  cfg_enabled source = Some true ->
  run_monitoring config env w =
  session (scr := Yahoo.scraper)
    (mkSettings "yahoo" (default [] (cfg_keywords source))
       (default 0 (cfg_min_price source)) true)
    [Restart; Pass env] w.
Proof.
  intros Hsrc Hen.
  assert (create_scrapers config w =
          mkOut [mkSettings "yahoo" (default [] (cfg_keywords source))
                   (default 0 (cfg_min_price source)) true]
            (post (reload w)) []) as Hone.
  { unfold create_scrapers, YahooScraper_init, BaseScraper_init.
    by rewrite Hsrc, Hen. }
  unfold run_monitoring, session.
  rewrite decide_False by (intros ->; by rewrite lookup_empty in Hsrc).
  rewrite bind_run, Hone. cbn [val post emitted app].
  rewrite !for_each_cons, !for_each_nil. cbn [val post emitted app do_step].
  by rewrite !app_nil_r.
Qed.

Example run_monitoring_enabled_example :
  emitted (run_monitoring config_enabled
             (env_of "camera" [item "A" 100; item "B" 80]) world_A)
  = [Notify "camera" (item "B" 80) true; Add "camera" "B"; Save Written; Sleep].
Proof. vm_compute. reflexivity. Qed.

(** ** Item ids and prices of the Yahoo scraper *)

Lemma Yahoo_get_price_is_base (it : Item) : Yahoo.get_price it = base_get_price it.
Proof. reflexivity. Qed.

(** A price the parser could not read counts as 0. *)
Lemma missing_price_is_zero (it : Item) : price it = None -> Yahoo.get_price it = 0.
Proof. unfold Yahoo.get_price. by intros ->. Qed.

Example extract_auction_url :
  Yahoo._extract_item_id_from_url
    "https://auctions.yahoo.co.jp/jp/auction/x1234567?foo" = "x1234567"%string.
Proof. reflexivity. Qed.

Example extract_skips_failed_attempt :
  Yahoo._extract_item_id_from_url "/auction/-/auction/b2" = "b2"%string.
Proof. reflexivity. Qed.

Example extract_none :
  Yahoo._extract_item_id_from_url "https://example.com/Auction/X" = ""%string.
Proof. reflexivity. Qed.

Example get_item_id_falls_back_to_url :
  Yahoo.get_item_id
    (mkItem (Some "t"%string) (Some "https://auctions.yahoo.co.jp/jp/auction/k99"%string)
       (Some 5) (Some ""%string))
  = "k99"%string.
Proof. reflexivity. Qed.

(** ** Item ids from URLs ([scrapers/yahoo.py]) *)

Section ItemIds.

Import Yahoo.

Lemma append_cons (a : ascii) (p r : string) :
  (String a p ++ r)%string = String a (p ++ r)%string.
Proof. reflexivity. Qed.

Lemma append_nil (r : string) : (EmptyString ++ r)%string = r.
Proof. reflexivity. Qed.

Lemma strip_prefix_app (p s r : string) :
  strip_prefix p s = Some r -> s = (p ++ r)%string.
Proof.
  revert s. induction p as [|a p IH]; intros s; cbn [strip_prefix].
  - by intros [= ->].
  - destruct s as [|b s]; [discriminate|].
    destruct (Ascii.eqb_spec a b) as [->|]; [|discriminate].
    intros Hs. by rewrite append_cons, (IH _ Hs).
Qed.

Lemma strip_prefix_here (p r : string) : strip_prefix p (p ++ r) = Some r.
Proof.
  induction p as [|a p IH]; [done|].
  rewrite append_cons. cbn [strip_prefix]. by rewrite Ascii.eqb_refl.
Qed.

Lemma take_id_chars (s : string) : string_forall is_id_char (take_id s) = true.
Proof.
  induction s as [|c s IH]; cbn; [done|].
  destruct (is_id_char c) eqn:E; cbn; [|done]. by rewrite E.
Qed.

Lemma take_id_app (id rest : string) :
  string_forall is_id_char id = true -> stops is_id_char rest ->
  take_id (id ++ rest) = id.
Proof.
  intros Hid Hrest. induction id as [|c id IH].
  - rewrite append_nil. destruct rest as [|c rest]; cbn in *; [done|]. by rewrite Hrest.
  - rewrite append_cons. cbn in *.
    apply andb_true_iff in Hid as [Hc Hid]. by rewrite Hc, IH.
Qed.

Lemma match_here_Some (u g : string) :
  match_here u = Some g ->
  g ≠ EmptyString /\ string_forall is_id_char g = true
  /\ exists c rest, u = ("/auction/" ++ String c rest)%string /\ is_id_char c = true.
Proof.
  unfold match_here. destruct (strip_prefix "/auction/" u) as [r|] eqn:E; [|discriminate].
  apply strip_prefix_app in E. destruct (truthy_str (take_id r)) eqn:Ht; [|discriminate].
  intros [= <-]. split_and!.
  - by destruct (take_id r).
  - apply take_id_chars.
  - destruct r as [|c r]; [discriminate|]. cbn in Ht.
    destruct (is_id_char c) eqn:Hc; [|discriminate]. eauto.
Qed.

Lemma match_here_app (c : ascii) (rest : string) :
  is_id_char c = true ->
  exists g, match_here ("/auction/" ++ String c rest) = Some g.
Proof.
  intros Hc. unfold match_here. rewrite strip_prefix_here. cbn [take_id].
  rewrite Hc. cbn [truthy_str]. eauto.
Qed.

Lemma extract_chars (u : string) :
  string_forall is_id_char (_extract_item_id_from_url u) = true.
Proof.
  induction u as [|c u IH].
  - reflexivity.
  - cbn [_extract_item_id_from_url].
    destruct (match_here (String c u)) as [g|] eqn:E; [|exact IH].
    by apply match_here_Some in E as (_ & Hg & _).
Qed.

(** X1.  An extracted id consists of characters of [[a-z0-9]] only. *)
Theorem extracted_id_is_lowercase_alphanumeric (u : string) :
  string_forall Yahoo.is_id_char (Yahoo._extract_item_id_from_url u) = true.
Proof. apply extract_chars. Qed.

(** X2.  The extracted id is non-empty exactly when the URL contains
    [/auction/] directly followed by a character of [[a-z0-9]]. *)
Theorem extracted_id_nonempty_iff (u : string) :
  Yahoo._extract_item_id_from_url u ≠ EmptyString <->
  exists p c rest,
    u = (p ++ "/auction/" ++ String c rest)%string /\ Yahoo.is_id_char c = true.
Proof.
  split.
  - induction u as [|a u IH].
    + intros Hne. by destruct Hne.
    + cbn [_extract_item_id_from_url].
      destruct (match_here (String a u)) as [g|] eqn:E.
      * intros _. apply match_here_Some in E as (_ & _ & c & rest & -> & Hc).
        by exists EmptyString, c, rest.
      * intros Hne. destruct (IH Hne) as (p & c & rest & -> & Hc).
        by exists (String a p), c, rest.
  - intros (p & c & rest & -> & Hc). induction p as [|a p IH].
    + destruct (match_here_app c rest Hc) as [g Hg].
      rewrite append_nil, !append_cons in *. rewrite append_nil in *.
      cbn [_extract_item_id_from_url]. rewrite Hg.
      by apply match_here_Some in Hg as (Hne & _).
    + rewrite append_cons. cbn [_extract_item_id_from_url].
      destruct (match_here _) as [g|] eqn:E; [|exact IH].
      by apply match_here_Some in E as (Hne & _).
Qed.

Lemma extracted_id_nonempty_iff_witness :
  Yahoo.is_id_char "k" = true
  /\ Yahoo._extract_item_id_from_url "/jp/auction/k99" ≠ EmptyString.
Proof.
  assert (Yahoo.is_id_char "k" = true) as Hc by reflexivity.
  split; [exact Hc|].
  apply (proj2 (extracted_id_nonempty_iff "/jp/auction/k99")).
  exists "/jp"%string, "k"%char, "99"%string. split; [reflexivity|exact Hc].
Defined.

(** X3.  From the address of an auction page on the site, the id that ends
    the path is extracted. *)
Theorem id_of_auction_page (id rest : string) :
  id ≠ EmptyString ->
  string_forall Yahoo.is_id_char id = true ->
  stops Yahoo.is_id_char rest ->
  Yahoo._extract_item_id_from_url
    ("https://auctions.yahoo.co.jp/jp/auction/" ++ id ++ rest) = id.
Proof.
  intros Hne Hid Hrest.
  rewrite !append_cons, append_nil.
  cbn -[take_id String.append]. rewrite take_id_app by done.
  by destruct id.
Qed.

Lemma id_of_auction_page_witness :
  "x1234567"%string ≠ EmptyString
  /\ string_forall Yahoo.is_id_char "x1234567" = true
  /\ stops Yahoo.is_id_char "?page=2"
  /\ Yahoo._extract_item_id_from_url
       "https://auctions.yahoo.co.jp/jp/auction/x1234567?page=2" = "x1234567"%string.
Proof.
  assert ("x1234567"%string ≠ EmptyString) as Hne by discriminate.
  assert (string_forall Yahoo.is_id_char "x1234567" = true) as Hid by reflexivity.
  assert (stops Yahoo.is_id_char "?page=2") as Hrest by reflexivity.
  split_and!; [exact Hne|exact Hid|exact Hrest|].
  exact (id_of_auction_page "x1234567" "?page=2" Hne Hid Hrest).
Defined.

End ItemIds.

(** ** The price parser ([scrapers/yahoo.py]) *)

Section Prices.

Context {py : Interpreter}.

Import YahooParser.

Lemma int_value_from (numbers : list char) (acc : Z) :
  fold_left (fun a c => a * 10 + Z.of_nat (default 0%nat (decimal c))) numbers acc
  = acc * 10 ^ Z.of_nat (length numbers) + int_value numbers.
Proof.
  unfold int_value. revert acc. induction numbers as [|c numbers IH]; intros acc.
  - cbn. lia.
  - cbn [fold_left length]. rewrite IH, (IH (0 * 10 + _)).
    rewrite Nat2Z.inj_succ, Z.pow_succ_r by lia. lia.
Qed.

Lemma int_value_app (a b : list char) :
  int_value (a ++ b) = int_value a * 10 ^ Z.of_nat (length b) + int_value b.
Proof. unfold int_value at 1. rewrite fold_left_app. apply int_value_from. Qed.

Lemma int_value_nonneg (numbers : list char) : 0 <= int_value numbers.
Proof.
  induction numbers as [|c numbers IH] using rev_ind; [done|].
  rewrite int_value_app. cbn. lia.
Qed.

Lemma py_int_convertible (text : list char) :
  convertible text -> py_int (decimals text) = Returns (int_value (decimals text)).
Proof.
  unfold convertible, py_int. intros [Hmax|Hlen].
  - by rewrite Hmax.
  - destruct (0 <? max_str_digits)%nat; cbn [andb]; [|done].
    destruct (Nat.ltb_spec max_str_digits (length (decimals text))); [lia|done].
Qed.

Lemma _parse_price_convertible (text : list char) :
  convertible text -> _parse_price text = int_value (decimals text).
Proof.
  intros Hc. unfold _parse_price. fold (decimals text).
  destruct (decimals text) as [|c numbers] eqn:E; [done|].
  rewrite <- E. by rewrite py_int_convertible.
Qed.

Lemma parsed_price_is_never_negative_aux (price_text : list char) :
  0 <= _parse_price price_text.
Proof.
  unfold _parse_price. destruct (filter _ price_text) as [|c numbers]; [done|].
  unfold py_int. destruct (_ && _); [done|apply int_value_nonneg].
Qed.

(** X4.  A parsed price is never negative; it is 0 when the text has no
    decimal digit, and also when it has more digits than [int] converts. *)
Theorem parsed_price_is_never_negative (price_text : list char) :
  0 <= _parse_price price_text
  /\ (decimals price_text = [] -> _parse_price price_text = 0)
  /\ ((0 < max_str_digits)%nat ->
      (max_str_digits < length (decimals price_text))%nat ->
      _parse_price price_text = 0).
Proof.
  split; [apply parsed_price_is_never_negative_aux|].
  unfold _parse_price. fold (decimals price_text). split.
  - by intros ->.
  - intros Hpos Hlen. destruct (decimals price_text) as [|c numbers]; [done|].
    unfold py_int.
    destruct (Nat.ltb_spec 0 max_str_digits); [|lia].
    destruct (Nat.ltb_spec max_str_digits (length (c :: numbers))); [done|lia].
Qed.

(** X5.  Only the decimal digits of the text count: a character that is not
    a digit can be dropped anywhere, and the digits of two texts put
    together are read as one number. *)
Theorem parsed_price_reads_all_digits_as_one_number (a b : list char) :
  (forall c, decimal c = None -> _parse_price (a ++ c :: b) = _parse_price (a ++ b))
  /\ (convertible (a ++ b) ->
      _parse_price (a ++ b) =
      _parse_price a * 10 ^ Z.of_nat (length (decimals b)) + _parse_price b).
Proof.
  split.
  - intros c Hc. unfold _parse_price.
    rewrite !filter_app, filter_cons, decide_False; [done|].
    unfold is_decimal. by rewrite Hc.
  - intros Hab.
    assert (convertible a /\ convertible b) as [Ha Hb].
    { unfold convertible, decimals in *. rewrite filter_app, length_app in Hab.
      split; destruct Hab; (by left) || (right; lia). }
    rewrite !_parse_price_convertible by done.
    unfold decimals. rewrite filter_app. apply int_value_app.
Qed.

End Prices.

Lemma parsed_price_reads_all_digits_as_one_number_witness :
  convertible (chars "1,000 - " ++ chars "2,000 yen")
  /\ YahooParser._parse_price (chars "1,000 - " ++ chars "2,000 yen") = 10002000.
Proof.
  assert (convertible (chars "1,000 - " ++ chars "2,000 yen")) as Hc.
  { right. vm_compute. lia. }
  split; [exact Hc|].
  rewrite (proj2 (parsed_price_reads_all_digits_as_one_number
                    (chars "1,000 - ") (chars "2,000 yen")) Hc).
  vm_compute. reflexivity.
Defined.

Lemma parsed_price_is_never_negative_witness :
  (0 < max_str_digits)%nat
  /\ (max_str_digits < length (decimals (ones 4301)))%nat
  /\ YahooParser._parse_price (ones 4301) = 0.
Proof.
  assert (0 < max_str_digits)%nat as Hpos by (vm_compute; lia).
  assert (max_str_digits < length (decimals (ones 4301)))%nat as Hlen.
  { vm_compute. lia. }
  split_and!; [exact Hpos|exact Hlen|].
  exact (proj2 (proj2 (parsed_price_is_never_negative (ones 4301)))
               Hpos Hlen).
Defined.

Example parse_price_yen : YahooParser._parse_price (chars "1,000 yen") = 1000.
Proof. vm_compute. reflexivity. Qed.

(** ** The items of a search page ([scrapers/yahoo.py]) *)

Section ParsedItems.

Context {py : Interpreter}.

Import YahooParser.

Lemma truthy_str_ne (s : string) : truthy_str s = true <-> s ≠ EmptyString.
Proof. destruct s; cbn; split; congruence. Qed.

Lemma absolute_ne (h : string) : h ≠ EmptyString -> absolute h ≠ EmptyString.
Proof.
  unfold absolute. intros Hh. destruct (starts_with_slash h); [|done].
  unfold BASE_URL. rewrite !append_cons. discriminate.
Qed.

Lemma _extract_item_info_well_formed (p : Product) (it : Item) :
  _extract_item_info p = Some it -> well_formed it.
Proof.
  unfold _extract_item_info.
  set (title_elem := match title_link p with | Some e => Some e | None => h3 p end).
  set (price_elem := match price_value p with | Some e => Some e | None => yen_span p end).
  destruct title_elem as [e|]; [|discriminate].
  set (h := default EmptyString (href e)).
  destruct (truthy_str h) eqn:Hh; [|by rewrite andb_false_r].
  change (default EmptyString (text <$> Some e)) with (text e).
  change (default EmptyString (Some (absolute h))) with (absolute h).
  destruct (truthy_str (text e)) eqn:Ht; [|discriminate].
  apply truthy_str_ne in Ht, Hh.
  pose proof (absolute_ne _ Hh) as Hu. rewrite (proj2 (truthy_str_ne _) Hu).
  intros [= <-]. exists (text e), (absolute h).
  cbn [title url]. split_and!; [done|done|done|done| |].
  - unfold Yahoo.get_price. cbn [price].
    destruct price_elem; [apply parsed_price_is_never_negative_aux|done].
  - unfold Yahoo.get_item_id. cbn [item_id url].
    destruct (truthy_str (Yahoo._extract_item_id_from_url (absolute h))) eqn:Hid.
    + change (default EmptyString (Some ?x)) with x. by rewrite Hid.
    + done.
Qed.

Lemma link_item_well_formed (l : Link) (it : Item) :
  link_item l = Some it -> well_formed it.
Proof.
  unfold link_item.
  destruct (truthy_str (link_text l)) eqn:Ht; cbn [negb]; [|done].
  destruct (truthy_str (default EmptyString (link_href l))) eqn:Hh; cbn [negb]; [|done].
  apply truthy_str_ne in Ht, Hh. intros [= <-].
  exists (link_text l), (absolute (default EmptyString (link_href l))).
  cbn [title url]. split_and!; [done|done|done|by apply absolute_ne| |].
  - unfold Yahoo.get_price. cbn [price default].
    destruct (parent_price l); [apply parsed_price_is_never_negative_aux|done].
  - unfold Yahoo.get_item_id. cbn [item_id url].
    change (default EmptyString (Some ?x)) with x.
    by destruct (truthy_str (Yahoo._extract_item_id_from_url
                               (absolute (default EmptyString (link_href l))))).
Qed.

End ParsedItems.

Section SearchResults.

Context {py : Interpreter}.

Import YahooParser.

Lemma omap_length_le {A B : Type} (f : A -> option B) (l : list A) :
  (length (omap f l) <= length l)%nat.
Proof.
  induction l as [|x l IH]; [done|]. cbn. destruct (f x); cbn; lia.
Qed.

Lemma parse_well_formed (html : outcome Page) : Forall well_formed (parse html).
Proof.
  apply Forall_forall. intros it. unfold parse.
  destruct html as [page|]; [|by intros ?%elem_of_nil].
  fold (product_list page).
  destruct (omap _extract_item_info (product_list page)) as [|it0 items] eqn:E.
  - unfold _parse_alternative. rewrite list_elem_of_omap.
    intros (l & _ & Hl). by apply link_item_well_formed in Hl.
  - rewrite <- E, list_elem_of_omap.
    intros (p & _ & Hp). by apply _extract_item_info_well_formed in Hp.
Qed.

(** X6.  Every item [search] returns has a non-empty title and a non-empty
    URL, a price that is not negative, and as its id exactly what the URL
    pattern extracts from its URL. *)
Theorem search_results_have_title_url_price_and_url_id (r : response) (it : Item) :
  it ∈ search r ->
  exists t u,
    title it = Some t /\ t ≠ EmptyString
    /\ url it = Some u /\ u ≠ EmptyString
    /\ 0 <= Yahoo.get_price it
    /\ Yahoo.get_item_id it = Yahoo._extract_item_id_from_url u.
Proof.
  destruct r as [|html]; cbn [search]; [by intros ?%elem_of_nil|].
  intros Hin. by apply (proj1 (Forall_forall _ _) (parse_well_formed html)) in Hin.
Qed.

(** X7.  The links of the page are used only when no product element gives
    an item, and then at most 50 items come back; otherwise the result is
    the items of the product elements, in their order. *)
Theorem links_are_the_fallback_of_products (page : Page) :
  (omap _extract_item_info (product_list page) ≠ [] ->
   parse (Returns page) = omap _extract_item_info (product_list page))
  /\ (omap _extract_item_info (product_list page) = [] ->
      parse (Returns page) = _parse_alternative (auction_links page)
      /\ (length (parse (Returns page)) <= 50)%nat).
Proof.
  unfold parse. fold (product_list page).
  destruct (omap _extract_item_info (product_list page)) as [|it items] eqn:E.
  - split; [done|]. intros _. split; [done|].
    unfold _parse_alternative.
    etrans; [apply omap_length_le|]. rewrite length_take. lia.
  - split; [done|discriminate].
Qed.

End SearchResults.

Lemma search_results_have_title_url_price_and_url_id_witness :
  mkItem (Some "Lens"%string)
         (Some "https://auctions.yahoo.co.jp/jp/auction/k99"%string)
         (Some 2500) (Some "k99"%string)
    ∈ YahooParser.search (YahooParser.Body (Returns page_of_links))
  /\ Yahoo.get_item_id
       (mkItem (Some "Lens"%string)
               (Some "https://auctions.yahoo.co.jp/jp/auction/k99"%string)
               (Some 2500) (Some "k99"%string)) = "k99"%string.
Proof.
  assert (mkItem (Some "Lens"%string)
                 (Some "https://auctions.yahoo.co.jp/jp/auction/k99"%string)
                 (Some 2500) (Some "k99"%string)
            ∈ YahooParser.search (YahooParser.Body (Returns page_of_links))) as Hin.
  { vm_compute. left. }
  split; [exact Hin|].
  destruct (search_results_have_title_url_price_and_url_id _ _ Hin)
    as (t & u & _ & _ & Hu & _ & _ & Hid).
  injection Hu as <-. rewrite Hid. reflexivity.
Defined.

Lemma links_are_the_fallback_of_products_witness :
  omap YahooParser._extract_item_info (product_list page_of_products) ≠ []
  /\ YahooParser.parse (Returns page_of_products)
     = [mkItem (Some "Camera"%string)
               (Some "https://auctions.yahoo.co.jp/jp/auction/x1234567"%string)
               (Some 1000) (Some "x1234567"%string)]
  /\ omap YahooParser._extract_item_info (product_list page_of_links) = []
  /\ (length (YahooParser.parse (Returns page_of_links)) <= 50)%nat.
Proof.
  assert (omap YahooParser._extract_item_info (product_list page_of_products) ≠ [])
    as Hsome by (vm_compute; discriminate).
  assert (omap YahooParser._extract_item_info (product_list page_of_links) = [])
    as Hnone by reflexivity.
  split_and!; [exact Hsome| |exact Hnone|].
  - rewrite (proj1 (links_are_the_fallback_of_products page_of_products) Hsome).
    vm_compute. reflexivity.
  - exact (proj2 (proj2 (links_are_the_fallback_of_products page_of_links) Hnone)).
Defined.

(** ** Passes of the Yahoo scraper *)

Section YahooPasses.

Context {scr : Scraper}.

Lemma notify_trace_no_failure env kw items :
  Forall (fun e => is_failed e = false) (notify_trace env kw items).
Proof.
  induction items as [|it items IH]; [constructor|].
  rewrite notify_trace_cons. constructor; [done|].
  apply Forall_app. split; [|done]. destruct (truthy_str _); by repeat constructor.
Qed.

Lemma run_keyword_no_failure env self k w :
  search env k ≠ Raises ->
  Forall (fun e => is_failed e = false) (emitted (run_keyword env self k w)).
Proof.
  intros Hs. run_keyword_cases env self k w; cbn [emitted]; [| |done].
  - apply Forall_app. split; [apply Forall_fmap, Forall_true; done|by repeat constructor].
  - destruct (filter _ items) as [|it new_items]; cbn [emitted];
      [by repeat constructor|].
    apply Forall_app. split; [apply notify_trace_no_failure|by repeat constructor].
Qed.

Lemma run_no_failure env self w :
  (forall k, search env k ≠ Raises) ->
  Forall (fun e => is_failed e = false) (emitted (run env self w)).
Proof.
  intros Hs. rewrite run_unfold. destruct (enabled self); [|constructor].
  revert w. induction (keywords self) as [|k ks IH]; intros w; [constructor|].
  rewrite for_each_cons. cbn [emitted]. apply Forall_app.
  split; [by apply run_keyword_no_failure|apply IH].
Qed.

End YahooPasses.

(** X8.  [YahooScraper.search] catches everything itself, so a pass of the
    Yahoo scraper never takes the failure branch of [run], whatever the site
    answers. *)
Theorem yahoo_pass_never_fails_a_keyword {py : Interpreter}
    (site : string -> YahooParser.response) (sends : Item -> bool)
    (writes : string -> write_outcome) (self : Settings) (w : world) :
  Forall (fun e => is_failed e = false)
    (emitted (run (scr := Yahoo.scraper) (yahoo_env site sends writes) self w)).
Proof. apply run_no_failure. intros k. discriminate. Qed.

(** X9.  For the Yahoo scraper a failed request counts as a search without
    items.  For a keyword with history nothing changes and nothing is
    written.  For a keyword without history the empty set is recorded and
    written, so the keyword is still without history and its next pass is
    again a first run. *)
Theorem failed_request_counts_as_no_items {py : Interpreter}
    (site : string -> YahooParser.response) (sends : Item -> bool)
    (writes : string -> write_outcome) (self : Settings) (kw : string) (w : world) :
  site kw = YahooParser.RequestFails ->
  (mem w !!! kw ≠ ∅ ->
   run_keyword (scr := Yahoo.scraper) (yahoo_env site sends writes) self kw w
   = mkOut tt w [Sleep])
  /\ (mem w !!! kw = ∅ ->
      emitted (run_keyword (scr := Yahoo.scraper) (yahoo_env site sends writes) self kw w)
      = [Save (writes kw); Sleep]
      /\ mem (post (run_keyword (scr := Yahoo.scraper)
                      (yahoo_env site sends writes) self kw w)) !! kw = Some ∅).
Proof.
  intros Hsite.
  assert (search (yahoo_env site sends writes) kw = Returns []) as Hs.
  { cbn. by rewrite Hsite. }
  split; intros Hmem.
  - by rewrite (run_keyword_incremental _ self kw [] w Hs Hmem).
  - rewrite (run_keyword_bootstrap _ self kw [] w Hs Hmem). cbn [emitted post mem].
    split; [done|]. apply lookup_insert_eq.
Qed.

Lemma failed_request_counts_as_no_items_witness :
  site_down_for "camera" page_of_links "camera" = YahooParser.RequestFails
  /\ mem (mkWorld seen_A Absent) !!! "camera"%string ≠ (∅ : gset string)
  /\ run_keyword (scr := Yahoo.scraper)
       (yahoo_env (site_down_for "camera" page_of_links) (fun _ => true) (fun _ => Written))
       camera "camera" (mkWorld seen_A Absent)
     = mkOut tt (mkWorld seen_A Absent) [Sleep]
  /\ mem (mkWorld ∅ Absent) !!! "camera"%string = (∅ : gset string)
  /\ emitted (run_keyword (scr := Yahoo.scraper)
       (yahoo_env (site_down_for "camera" page_of_links) (fun _ => true) (fun _ => Written))
       camera "camera" (mkWorld ∅ Absent))
     = [Save Written; Sleep].
Proof.
  assert (site_down_for "camera" page_of_links "camera" = YahooParser.RequestFails)
    as Hsite by reflexivity.
  assert (mem (mkWorld seen_A Absent) !!! "camera"%string ≠ (∅ : gset string)) as Hne.
  { intros Heq. vm_compute in Heq. discriminate Heq. }
  assert (mem (mkWorld ∅ Absent) !!! "camera"%string = (∅ : gset string)) as Hempty
    by reflexivity.
  split_and!; [exact Hsite|exact Hne| |exact Hempty|].
  - exact (proj1 (failed_request_counts_as_no_items _ (fun _ => true) (fun _ => Written)
                    camera "camera" (mkWorld seen_A Absent) Hsite) Hne).
  - exact (proj1 (proj2 (failed_request_counts_as_no_items _ (fun _ => true)
                           (fun _ => Written) camera "camera" (mkWorld ∅ Absent) Hsite)
                    Hempty)).
Defined.

(** ** What a pass notifies, and when it notifies nothing *)

Section Notifications.

Context {scr : Scraper}.

Lemma elem_of_notify_trace env k items kw it sent :
  Notify kw it sent ∈ notify_trace env k items <->
  kw = k /\ it ∈ items /\ sent = send_line_notification env it.
Proof.
  induction items as [|x items IH].
  - split; [by intros ?%elem_of_nil|]. by intros (_ & ?%elem_of_nil & _).
  - rewrite notify_trace_cons, elem_of_cons, elem_of_app, IH, elem_of_cons.
    split.
    + intros [Heq|[Hadd|(-> & Hin & ->)]].
      * injection Heq as -> -> ->. eauto.
      * destruct (truthy_str _); [|by apply elem_of_nil in Hadd].
        apply list_elem_of_singleton in Hadd. discriminate Hadd.
      * eauto.
    + intros (-> & [->|Hin] & ->); eauto.
Qed.

Lemma elem_of_run_keyword_notify env self k w kw it sent :
  Notify kw it sent ∈ emitted (run_keyword env self k w) <->
  kw = k /\ it ∈ notified_items env self k w /\ sent = send_line_notification env it.
Proof.
  assert (forall (tail : list event),
            Forall (fun e => is_notify e = false) tail ->
            Notify kw it sent ∈ tail -> False) as Hquiet.
  { intros tail Hall Hin. apply (proj1 (Forall_forall _ _) Hall) in Hin. discriminate Hin. }
  unfold notified_items. run_keyword_cases env self k w; cbn [emitted].
  - split; [|by intros (_ & ?%elem_of_nil & _)].
    intros Hin. destruct (Hquiet _ (proj2 (no_notify_in_adds k _) (write env k)) Hin).
  - destruct (filter _ items) as [|x new_items]; cbn [emitted].
    + split; [|by intros (_ & ?%elem_of_nil & _)].
      intros Hin. apply list_elem_of_singleton in Hin. discriminate Hin.
    + rewrite elem_of_app, elem_of_notify_trace. split; [|by left].
      intros [Hin|Hin]; [done|]. destruct (Hquiet [Save (write env k); Sleep]); [|done].
      by repeat constructor.
  - split; [|by intros (_ & ?%elem_of_nil & _)].
    intros Hin. apply list_elem_of_singleton in Hin. discriminate Hin.
Qed.

Lemma filter_none {A : Type} (P : A -> Prop) `{!forall x, Decision (P x)} (l : list A) :
  (forall x, x ∈ l -> P x -> False) -> filter P l = [].
Proof.
  induction l as [|x l IH]; intros Hno; [done|].
  rewrite filter_cons, decide_False by (intros Hx; apply (Hno x); [left|done]).
  apply IH. intros y Hy. apply Hno. by right.
Qed.

Lemma notified_items_same_set env self k w w' :
  mem w !!! k = mem w' !!! k ->
  notified_items env self k w = notified_items env self k w'.
Proof. unfold notified_items. by intros ->. Qed.

Lemma run_keyword_frame env self k w kw :
  k ≠ kw -> mem (post (run_keyword env self k w)) !! kw = mem w !! kw.
Proof.
  intros Hk. run_keyword_cases env self k w; cbn [post mem]; [| |done].
  - by rewrite lookup_insert_ne.
  - destruct (filter _ items) as [|x new_items]; cbn [post mem]; [done|].
    by rewrite lookup_insert_ne.
Qed.

Lemma run_keyword_frame_total env self k w kw :
  k ≠ kw -> mem (post (run_keyword env self k w)) !!! kw = mem w !!! kw.
Proof.
  intros Hk. by rewrite !lookup_total_alt, run_keyword_frame.
Qed.

(** After its iteration, a keyword has nothing left to notify. *)
Lemma run_keyword_settles env self k w :
  notified_items env self k (post (run_keyword env self k w)) = [].
Proof.
  unfold notified_items at 1.
  destruct (search env k) as [items|] eqn:Hs; [|done].
  case_decide as Hne; [done|].
  apply filter_none. intros it Hin Hcand.
  apply is_candidate_true in Hcand as (Hid & Hnot & Hp0 & Hpmin).
  apply Hnot. clear Hnot Hne.
  destruct (decide (mem w !!! k = ∅)) as [Hempty|Hhist].
  - rewrite (run_keyword_bootstrap env self k items w Hs Hempty). cbn [post mem].
    rewrite lookup_total_insert_eq. apply elem_of_ids_of. eauto.
  - destruct (decide (get_item_id it ∈ mem w !!! k)) as [Hseen|Hnew].
    + by apply run_keyword_mono.
    + apply run_keyword_records, elem_of_ids_of. split; [done|]. exists it.
      split; [|done]. unfold notified_items. rewrite Hs, decide_False by done.
      apply list_elem_of_filter. split; [|done]. by apply is_candidate_true.
Qed.

Lemma run_keyword_stays_settled env self k w k' :
  notified_items env self k' w = [] ->
  notified_items env self k' (post (run_keyword env self k w)) = [].
Proof.
  intros Hq. destruct (decide (k = k')) as [->|Hk].
  - apply run_keyword_settles.
  - rewrite <- Hq. apply notified_items_same_set. by apply run_keyword_frame_total.
Qed.

Lemma keywords_stay_settled env self ks w k' :
  notified_items env self k' w = [] ->
  notified_items env self k' (post (for_each ks (run_keyword env self) w)) = [].
Proof.
  revert w. induction ks as [|k ks IH]; intros w Hq; [done|].
  rewrite for_each_cons. cbn [post]. by apply IH, run_keyword_stays_settled.
Qed.

Lemma keywords_settle env self ks w k :
  k ∈ ks ->
  notified_items env self k (post (for_each ks (run_keyword env self) w)) = [].
Proof.
  revert w. induction ks as [|k0 ks IH]; intros w Hin; [by apply elem_of_nil in Hin|].
  rewrite for_each_cons. cbn [post].
  apply elem_of_cons in Hin as [->|Hin]; [|by apply IH].
  apply keywords_stay_settled, run_keyword_settles.
Qed.

Lemma settled_keywords_are_quiet env self ks w :
  (forall k, k ∈ ks -> notified_items env self k w = []) ->
  Forall (fun e => is_notify e = false) (emitted (for_each ks (run_keyword env self) w)).
Proof.
  revert w. induction ks as [|k ks IH]; intros w Hq; [constructor|].
  rewrite for_each_cons. cbn [emitted]. apply Forall_app. split.
  - apply Forall_forall. intros e Hin. destruct e as [kw it sent| | | |]; try done.
    apply elem_of_run_keyword_notify in Hin as (-> & Hit & _).
    rewrite (Hq k) in Hit by left. by apply elem_of_nil in Hit.
  - apply IH. intros k' Hk'. apply run_keyword_stays_settled, Hq. by right.
Qed.

End Notifications.

(** X10.  A pass repeated with the same search results notifies nothing:
    whatever the first pass found is recorded or was not worth a
    notification, the push API's answers notwithstanding. *)
Theorem repeated_pass_notifies_nothing {scr : Scraper} (env : pass_env)
    (self : Settings) (w : world) :
  Forall (fun e => is_notify e = false)
    (emitted (run env self (post (run env self w)))).
Proof.
  rewrite !run_unfold. destruct (enabled self); [|constructor].
  apply settled_keywords_are_quiet. intros k Hk. by apply keywords_settle.
Qed.

(** X11.  When none of the configured keywords has history and no keyword
    is configured twice, the pass notifies nothing, however many items the
    searches return.  (A keyword configured twice is searched twice by the
    code and may get a second answer, which the environment of a pass does
    not express; hence the condition.) *)
Theorem pass_without_history_notifies_nothing {scr : Scraper} (env : pass_env)
    (self : Settings) (w : world) :
  NoDup (keywords self) ->
  (forall k, k ∈ keywords self -> mem w !!! k = ∅) ->
  Forall (fun e => is_notify e = false) (emitted (run env self w)).
Proof.
  intros _ Hnew. rewrite run_unfold. destruct (enabled self); [|constructor].
  apply settled_keywords_are_quiet. intros k Hk. unfold notified_items.
  destruct (search env k); [|done]. by rewrite decide_True by auto.
Qed.

Lemma pass_without_history_notifies_nothing_witness :
  NoDup (keywords (with_keywords camera0 ["a"; "c"]%string))
  /\ (forall k, k ∈ keywords (with_keywords camera0 ["a"; "c"]%string) ->
                mem (mkWorld ∅ Absent) !!! k = (∅ : gset string))
  /\ emitted (run env_abc (with_keywords camera0 ["a"; "c"]%string) (mkWorld ∅ Absent))
     = [Add "a" "A"; Save Written; Sleep; Add "c" "C"; Save Written; Sleep]
  /\ Forall (fun e => is_notify e = false)
       (emitted (run env_abc (with_keywords camera0 ["a"; "c"]%string)
                   (mkWorld ∅ Absent))).
Proof.
  assert (NoDup (keywords (with_keywords camera0 ["a"; "c"]%string))) as Hnd.
  { apply NoDup_cons_2; [|apply NoDup_cons_2; [apply not_elem_of_nil|apply NoDup_nil_2]].
    intros Hin. apply list_elem_of_singleton in Hin. discriminate Hin. }
  assert (forall k, k ∈ keywords (with_keywords camera0 ["a"; "c"]%string) ->
                    mem (mkWorld ∅ Absent) !!! k = (∅ : gset string)) as Hnew.
  { intros k _. reflexivity. }
  split_and!; [exact Hnd|exact Hnew|vm_compute; reflexivity|].
  exact (pass_without_history_notifies_nothing _ _ _ Hnd Hnew).
Defined.

Section Provenance.

Context {scr : Scraper}.

Lemma keywords_notify_origin env self ks w kw it sent :
  Notify kw it sent ∈ emitted (for_each ks (run_keyword env self) w) ->
  kw ∈ ks /\ sent = send_line_notification env it
  /\ exists w', mem w !!! kw ⊆ mem w' !!! kw /\ it ∈ notified_items env self kw w'.
Proof.
  revert w. induction ks as [|k ks IH]; intros w.
  - by intros ?%elem_of_nil.
  - rewrite for_each_cons. cbn [emitted]. rewrite elem_of_app. intros [Hin|Hin].
    + apply elem_of_run_keyword_notify in Hin as (-> & Hit & ->).
      split_and!; [by left|done|]. by exists w.
    + destruct (IH _ Hin) as (Hks & Hsent & w' & Hsub & Hit).
      split_and!; [by right|done|]. exists w'. split; [|done].
      etrans; [apply (run_keyword_mono env self k)|done].
Qed.

Lemma run_notify_origin env self w kw it sent :
  Notify kw it sent ∈ emitted (run env self w) ->
  enabled self = true /\ kw ∈ keywords self
  /\ sent = send_line_notification env it
  /\ exists w', mem w !!! kw ⊆ mem w' !!! kw /\ it ∈ notified_items env self kw w'.
Proof.
  rewrite run_unfold. destruct (enabled self); [|by intros ?%elem_of_nil].
  intros (? & ? & ?)%keywords_notify_origin. done.
Qed.

End Provenance.

(** X12.  Every notification attempt of a pass is for an item that the
    search of one of the configured keywords returned in this pass, with a
    non-empty id that was not in the keyword's set when the pass began, and
    with a price that is not 0 and not below [min_price]; a disabled scraper
    attempts none. *)
Theorem notification_is_for_a_new_priced_search_result {scr : Scraper}
    (env : pass_env) (self : Settings) (w : world) (kw : string) (it : Item)
    (sent : bool) :
  Notify kw it sent ∈ emitted (run env self w) ->
  enabled self = true
  /\ kw ∈ keywords self
  /\ (exists items, search env kw = Returns items /\ it ∈ items)
  /\ get_item_id it ≠ EmptyString
  /\ (get_item_id it ∉ mem w !!! kw)
  /\ get_price it ≠ 0
  /\ min_price self <= get_price it
  /\ sent = send_line_notification env it.
Proof.
  intros (Hen & Hkw & Hsent & w' & Hsub & Hit)%run_notify_origin.
  unfold notified_items in Hit. destruct (search env kw) as [items|]; [|by apply elem_of_nil in Hit].
  case_decide; [by apply elem_of_nil in Hit|].
  apply list_elem_of_filter in Hit as [Hcand Hin].
  apply is_candidate_true in Hcand as (Hid & Hnot & Hp0 & Hpmin).
  split_and!; [done|done|by exists items|done| |done|done|done].
  intros Hseen. apply Hnot. by apply Hsub.
Qed.

Lemma notification_is_for_a_new_priced_search_result_witness :
  Notify "camera" (item "B" 80) true
    ∈ emitted (run (env_of "camera" [item "A" 100; item "B" 80; item "C" 5]) camera
                 (mkWorld seen_A Absent))
  /\ min_price camera <= get_price (item "B" 80).
Proof.
  assert (Notify "camera" (item "B" 80) true
            ∈ emitted (run (env_of "camera" [item "A" 100; item "B" 80; item "C" 5])
                         camera (mkWorld seen_A Absent))) as Hin.
  { vm_compute. left. }
  split; [exact Hin|].
  by destruct (notification_is_for_a_new_priced_search_result _ _ _ _ _ _ Hin)
    as (_ & _ & _ & _ & _ & _ & Hmin & _).
Defined.

(** ** What a pass leaves alone *)

Section Frame.

Context {scr : Scraper}.

Lemma keywords_frame env self ks w kw :
  kw ∉ ks -> mem (post (for_each ks (run_keyword env self) w)) !! kw = mem w !! kw.
Proof.
  revert w. induction ks as [|k ks IH]; intros w Hnot; [done|].
  apply not_elem_of_cons in Hnot as [Hk Hnot].
  rewrite for_each_cons. cbn [post]. rewrite IH by done.
  by apply run_keyword_frame.
Qed.

Lemma run_keyword_saved_or_same env self k w :
  write env k = Written ->
  post (run_keyword env self k w) = w \/ synced (post (run_keyword env self k w)).
Proof.
  intros Hw. run_keyword_cases env self k w; cbn [post]; [| |by left].
  - right. rewrite Hw. apply written_synced.
  - destruct (filter _ items) as [|x new_items]; cbn [post]; [by left|].
    right. rewrite Hw. apply written_synced.
Qed.

Lemma run_keyword_disk_kept env self k w :
  write env k = OpenFails -> disk (post (run_keyword env self k w)) = disk w.
Proof.
  intros Hw. run_keyword_cases env self k w; cbn [post disk]; [| |done].
  - by rewrite Hw.
  - destruct (filter _ items) as [|x new_items]; cbn [post disk]; [done|].
    by rewrite Hw.
Qed.

Lemma run_disk_kept env self w :
  (forall k, write env k = OpenFails) -> disk (post (run env self w)) = disk w.
Proof.
  intros Hw. rewrite run_unfold. destruct (enabled self); [|done].
  revert w. induction (keywords self) as [|k ks IH]; intros w; [done|].
  rewrite for_each_cons. cbn [post]. by rewrite IH, run_keyword_disk_kept.
Qed.

End Frame.

(** X13.  A pass does not touch the history of a keyword that is not
    configured: its entry, present or not, is the same after the pass. *)
Theorem pass_leaves_other_keywords_alone {scr : Scraper} (env : pass_env)
    (self : Settings) (w : world) (kw : string) :
  kw ∉ keywords self ->
  mem (post (run env self w)) !! kw = mem w !! kw.
Proof.
  intros Hnot. rewrite run_unfold. destruct (enabled self); [|done].
  by apply keywords_frame.
Qed.

Lemma pass_leaves_other_keywords_alone_witness :
  ("lens"%string ∉ keywords camera)
  /\ mem (post (run (env_of "camera" [item "B" 80]) camera
                  (mkWorld (<["lens"%string := {["L"%string]}]> seen_A) Absent)))
       !! "lens"%string
     = Some ({["L"%string]} : gset string).
Proof.
  assert ("lens"%string ∉ keywords camera) as Hnot.
  { intros Hin. apply list_elem_of_singleton in Hin. discriminate Hin. }
  split; [exact Hnot|].
  rewrite (pass_leaves_other_keywords_alone _ _ _ _ Hnot). reflexivity.
Defined.

(** X14.  When the file writes of a pass complete, the pass either leaves
    the world exactly as it was or ends with the file holding what is in
    memory: no change of the history stays unwritten. *)
Theorem pass_persists_every_change {scr : Scraper} (env : pass_env)
    (self : Settings) (w : world) :
  (forall k, write env k = Written) ->
  post (run env self w) = w \/ synced (post (run env self w)).
Proof.
  intros Hw. rewrite run_unfold. destruct (enabled self); [|by left].
  revert w. induction (keywords self) as [|k ks IH]; intros w; [by left|].
  rewrite for_each_cons. cbn [post].
  destruct (IH (post (run_keyword env self k w))) as [Hsame|Hsync]; [|by right].
  rewrite Hsame. by apply run_keyword_saved_or_same.
Qed.

Lemma pass_persists_every_change_witness :
  (forall k, write (env_of "camera" [item "A" 100; item "B" 80]) k = Written)
  /\ _load_seen_items
       (disk (post (run (env_of "camera" [item "A" 100; item "B" 80]) camera
                      (mkWorld seen_A Absent))))
     = seen_AB.
Proof.
  assert (forall k, write (env_of "camera" [item "A" 100; item "B" 80]) k = Written)
    as Hw by reflexivity.
  split; [exact Hw|].
  destruct (pass_persists_every_change _ camera (mkWorld seen_A Absent) Hw)
    as [Hsame|Hsync].
  - vm_compute in Hsame. discriminate Hsame.
  - rewrite Hsync. vm_compute. reflexivity.
Defined.

(** ** Pauses and file writes *)

Section Counting.

Context {scr : Scraper}.

Lemma count_app kind (t1 t2 : list event) :
  count kind (t1 ++ t2) = (count kind t1 + count kind t2)%nat.
Proof. unfold count. by rewrite filter_app, length_app. Qed.

Lemma count_none kind (tr : list event) :
  Forall (fun e => kind e = false) tr -> count kind tr = 0%nat.
Proof.
  unfold count. induction 1 as [|e tr He _ IH]; [done|].
  rewrite filter_cons, decide_False; [done|congruence].
Qed.

Lemma notify_trace_kinds env kw items :
  Forall (fun e => is_save e = false /\ is_sleep e = false /\ is_failed e = false)
    (notify_trace env kw items).
Proof.
  induction items as [|it items IH]; [constructor|].
  rewrite notify_trace_cons. constructor; [done|].
  apply Forall_app. split; [|done]. destruct (truthy_str _); by repeat constructor.
Qed.

Lemma adds_kinds kw (ids : list string) :
  Forall (fun e => is_save e = false /\ is_sleep e = false /\ is_failed e = false)
    (Add kw <$> ids).
Proof. apply Forall_fmap, Forall_true. done. Qed.

Lemma count_quiet_prefix kind (pre tail : list event) :
  Forall (fun e => is_save e = false /\ is_sleep e = false /\ is_failed e = false) pre ->
  kind = is_save \/ kind = is_sleep \/ kind = is_failed ->
  count kind (pre ++ tail) = count kind tail.
Proof.
  intros Hpre Hkind. rewrite count_app, count_none; [done|].
  eapply Forall_impl; [exact Hpre|]. cbn. intros e (? & ? & ?).
  by destruct Hkind as [->|[->| ->]].
Qed.

Lemma run_keyword_counts env self k w :
  (count is_sleep (emitted (run_keyword env self k w))
   + count is_failed (emitted (run_keyword env self k w)) = 1)%nat
  /\ (count is_save (emitted (run_keyword env self k w))
      <= count is_sleep (emitted (run_keyword env self k w)))%nat.
Proof.
  run_keyword_cases env self k w; cbn [emitted].
  - rewrite !(count_quiet_prefix _ _ _ (adds_kinds k _)) by tauto. vm_compute; lia.
  - destruct (filter _ items) as [|x new_items]; cbn [emitted]; [vm_compute; lia|].
    rewrite !(count_quiet_prefix _ _ _ (notify_trace_kinds env k _)) by tauto.
    vm_compute; lia.
  - vm_compute; lia.
Qed.

End Counting.

(** X15.  In a pass of an enabled scraper each keyword either fails, once,
    or is followed by one pause; and the history file is written at most
    once per keyword that did not fail. *)
Theorem one_pause_and_at_most_one_write_per_keyword {scr : Scraper}
    (env : pass_env) (self : Settings) (w : world) :
  enabled self = true ->
  (count is_sleep (emitted (run env self w))
   + count is_failed (emitted (run env self w)) = length (keywords self))%nat
  /\ (count is_save (emitted (run env self w))
      <= count is_sleep (emitted (run env self w)))%nat.
Proof.
  intros Hen. rewrite run_unfold, Hen.
  revert w. induction (keywords self) as [|k ks IH]; intros w; [vm_compute; lia|].
  rewrite for_each_cons. cbn [emitted length]. rewrite !count_app.
  destruct (IH (post (run_keyword env self k w))) as [IH1 IH2].
  destruct (run_keyword_counts env self k w) as [H1 H2]. lia.
Qed.

Lemma one_pause_and_at_most_one_write_per_keyword_witness :
  enabled camera = true
  /\ (count is_sleep (emitted (run env_abc (with_keywords camera ["a"; "b"; "c"]%string)
                                 (mkWorld seen_ac Absent)))
      + count is_failed (emitted (run env_abc (with_keywords camera ["a"; "b"; "c"]%string)
                                    (mkWorld seen_ac Absent))) = 3)%nat.
Proof.
  assert (enabled (with_keywords camera ["a"; "b"; "c"]%string) = true) as Hen
    by reflexivity.
  split; [reflexivity|].
  exact (proj1 (one_pause_and_at_most_one_write_per_keyword env_abc
                  (with_keywords camera ["a"; "b"; "c"]%string)
                  (mkWorld seen_ac Absent) Hen)).
Defined.

(** ** The history only grows *)

(** X16.  Over any sequence of passes and restarts (the store round-tripping
    where the history is read back), no id ever leaves a keyword's set. *)
Theorem history_only_grows {scr : Scraper} (self : Settings) (steps : list step)
    (w : world) (kw : string) :
  round_trips steps w ->
  mem w !!! kw ⊆ mem (post (session self steps w)) !!! kw.
Proof.
  revert w. induction steps as [|s steps IH]; intros w Hrt; [done|].
  rewrite session_cons. cbn [post].
  pose proof (round_trips_tail self _ _ _ Hrt) as Hrt'.
  etrans; [|by apply IH].
  destruct s as [env|]; cbn [do_step].
  - apply run_mono.
  - apply round_trips_restart in Hrt. by rewrite reload_synced.
Qed.

Lemma history_only_grows_witness :
  round_trips two_passes world_A
  /\ mem world_A !!! "camera"%string
       ⊆ mem (post (session camera two_passes world_A)) !!! "camera"%string.
Proof.
  assert (round_trips two_passes world_A) as Hrt.
  { intros _. split; [by vm_compute|]. repeat constructor. }
  split; [exact Hrt|].
  exact (history_only_grows camera two_passes world_A "camera" Hrt).
Defined.

(** ** More on loading the history *)

(** X17.  One value in the file that cannot be turned into a set makes the
    loader drop the history of every keyword. *)
Theorem one_bad_entry_drops_the_whole_history (entries : gmap string pyvalue)
    (kw : string) (v : pyvalue) :
  entries !! kw = Some v ->
  py_set v = None ->
  _load_seen_items (Holds (DDict entries)) = ∅.
Proof.
  intros Hkw Hv. unfold _load_seen_items, json_load, sets_of_lists.
  rewrite decide_False; [done|].
  intros Hall. specialize (Hall kw v Hkw). cbn in Hall. rewrite Hv in Hall.
  by destruct Hall.
Qed.

Lemma one_bad_entry_drops_the_whole_history_witness :
  ({[ "camera"%string := VIds ["A"%string]; "lens"%string := VNotIterable ]}
     : gmap string pyvalue) !! "lens"%string = Some VNotIterable
  /\ py_set VNotIterable = None
  /\ _load_seen_items
       (Holds (DDict {[ "camera"%string := VIds ["A"%string];
                        "lens"%string := VNotIterable ]})) = ∅.
Proof.
  assert (({[ "camera"%string := VIds ["A"%string]; "lens"%string := VNotIterable ]}
             : gmap string pyvalue) !! "lens"%string = Some VNotIterable) as Hkw
    by (vm_compute; reflexivity).
  assert (py_set VNotIterable = None) as Hv by reflexivity.
  split_and!; [exact Hkw|exact Hv|].
  exact (one_bad_entry_drops_the_whole_history _ _ _ Hkw Hv).
Defined.

(** X18.  A file whose values are all lists of strings loads as the sets of
    those lists, keyword by keyword: the order of the ids in the file and
    ids written twice make no difference. *)
Theorem lists_load_as_sets (lists : gmap string (list string)) :
  _load_seen_items (Holds (DDict (VIds <$> lists))) = list_to_set <$> lists.
Proof.
  unfold _load_seen_items, json_load, sets_of_lists.
  rewrite decide_True.
  - apply map_eq. intros kw. rewrite lookup_omap, !lookup_fmap.
    by destruct (lists !! kw).
  - intros kw v. rewrite lookup_fmap, fmap_Some. intros (ids & _ & ->). cbn. eauto.
Qed.

Example lists_load_as_sets_example :
  _load_seen_items (Holds (DDict {[ "camera"%string := VIds ["B"; "A"; "B"]%string ]}))
  = seen_AB.
Proof. vm_compute. reflexivity. Qed.

(** ** A history file that cannot be written *)

Section ReadOnly.

Lemma run_monitoring_reads_the_file (config : gmap string SourceConfig)
    (env : pass_env) (w w' : world) :
  disk w = disk w' ->
  emitted (run_monitoring config env w) = emitted (run_monitoring config env w').
Proof.
  intros Hd. destruct (config !! "yahoo"%string) as [source|] eqn:Hsrc.
  - destruct (cfg_enabled source) as [[|]|] eqn:Hen.
    + rewrite !(run_monitoring_enabled config source env _ Hsrc Hen).
      unfold session. rewrite !for_each_cons, !for_each_nil.
      cbn [emitted post do_step]. unfold reload. cbn [post emitted app].
      by rewrite Hd.
    + unfold run_monitoring, create_scrapers. rewrite Hsrc, Hen.
      case_decide; [done|]. by rewrite !bind_run.
    + unfold run_monitoring, create_scrapers. rewrite Hsrc, Hen.
      case_decide; [done|]. by rewrite !bind_run.
  - unfold run_monitoring, create_scrapers. rewrite Hsrc.
    case_decide; [done|]. by rewrite !bind_run.
Qed.

Lemma run_monitoring_disk_kept (config : gmap string SourceConfig)
    (env : pass_env) (w : world) :
  (forall k, write env k = OpenFails) ->
  disk (post (run_monitoring config env w)) = disk w.
Proof.
  intros Hw. destruct (config !! "yahoo"%string) as [source|] eqn:Hsrc.
  - destruct (cfg_enabled source) as [[|]|] eqn:Hen.
    + rewrite (run_monitoring_enabled config source env _ Hsrc Hen).
      unfold session. rewrite !for_each_cons, !for_each_nil.
      cbn [emitted post do_step]. by rewrite run_disk_kept.
    + unfold run_monitoring, create_scrapers. rewrite Hsrc, Hen.
      case_decide; [done|]. by rewrite !bind_run.
    + unfold run_monitoring, create_scrapers. rewrite Hsrc, Hen.
      case_decide; [done|]. by rewrite !bind_run.
  - unfold run_monitoring, create_scrapers. rewrite Hsrc.
    case_decide; [done|]. by rewrite !bind_run.
Qed.

End ReadOnly.

(** X19.  [run_monitoring] builds its scraper anew and so knows only what is
    in the file.  When the file cannot be opened for writing, the next
    [run_monitoring] with the same search results makes the same calls
    again, notifications included. *)
Theorem unwritable_history_repeats_the_notifications
    (config : gmap string SourceConfig) (env : pass_env) (w : world) :
  (forall k, write env k = OpenFails) ->
  emitted (run_monitoring config env (post (run_monitoring config env w)))
  = emitted (run_monitoring config env w).
Proof.
  intros Hw. apply run_monitoring_reads_the_file. by apply run_monitoring_disk_kept.
Qed.

Lemma unwritable_history_repeats_the_notifications_witness :
  (forall k, write (env_readonly "camera" [item "B" 80]) k = OpenFails)
  /\ emitted (run_monitoring config_enabled (env_readonly "camera" [item "B" 80])
                (post (run_monitoring config_enabled
                         (env_readonly "camera" [item "B" 80]) world_A)))
     = [Notify "camera" (item "B" 80) true; Add "camera" "B"; Save OpenFails; Sleep].
Proof.
  assert (forall k, write (env_readonly "camera" [item "B" 80]) k = OpenFails) as Hw
    by reflexivity.
  split; [exact Hw|].
  rewrite (unwritable_history_repeats_the_notifications config_enabled _ world_A Hw).
  vm_compute. reflexivity.
Defined.

(** ** Sending a message ([utils/notify.py]) *)

Lemma send_without_token (os_environ : LineNotify.environ)
    (api : LineNotify.push -> outcome unit) (message : string) :
  default EmptyString (LineNotify.LINE_CHANNEL_ACCESS_TOKEN os_environ) = EmptyString ->
  LineNotify.send_line_notification os_environ api message None None = (false, []).
Proof. unfold LineNotify.send_line_notification. by intros ->. Qed.

(** X20.  [send_line_notification] calls the API at most once, and only with
    a non-empty token and a non-empty user id; it returns [True] exactly
    when that call is made and does not raise.  An argument that is given
    stands even when it is empty: the environment is asked only for an
    argument that is [None]. *)
Theorem push_needs_token_and_user (os_environ : LineNotify.environ)
    (api : LineNotify.push -> outcome unit) (message : string)
    (channel_access_token user_id : option string) :
  let token :=
    default EmptyString
      (match channel_access_token with
       | None => LineNotify.LINE_CHANNEL_ACCESS_TOKEN os_environ
       | Some t => Some t
       end) in
  let user :=
    default EmptyString
      (match user_id with
       | None => LineNotify.LINE_USER_ID os_environ
       | Some u => Some u
       end) in
  let r := LineNotify.send_line_notification os_environ api message
             channel_access_token user_id in
  (token = EmptyString \/ user = EmptyString -> r = (false, []))
  /\ (token ≠ EmptyString -> user ≠ EmptyString ->
      snd r = [LineNotify.mkPush token user message]
      /\ (fst r = true <-> api (LineNotify.mkPush token user message) = Returns tt)).
Proof.
  cbn zeta. unfold LineNotify.send_line_notification.
  set (token := default EmptyString _). set (user := default EmptyString _).
  split.
  - intros [-> | ->]; [done|]. by destruct (truthy_str token).
  - intros Ht Hu. apply truthy_str_ne in Ht, Hu. rewrite Ht, Hu. cbn [negb].
    destruct (api _) as [[]|]; cbn; split; done.
Qed.

Lemma push_needs_token_and_user_witness :
  LineNotify.send_line_notification with_token (fun _ => Returns tt) "m" None (Some ""%string)
  = (false, [])
  /\ "T1"%string ≠ EmptyString
  /\ "U1"%string ≠ EmptyString
  /\ snd (LineNotify.send_line_notification with_token (fun _ => Raises) "m" None None)
     = [LineNotify.mkPush "T1" "U1" "m"].
Proof.
  assert ("T1"%string ≠ EmptyString) as Ht by discriminate.
  assert ("U1"%string ≠ EmptyString) as Hu by discriminate.
  split_and!; [|exact Ht|exact Hu|].
  - apply (proj1 (push_needs_token_and_user with_token (fun _ => Returns tt) "m"
                    None (Some ""%string))). by right.
  - exact (proj1 (proj2 (push_needs_token_and_user with_token (fun _ => Raises) "m"
                           None None) Ht Hu)).
Defined.

(** X22.  Without an access token in the environment no notification of a
    pass is delivered, and still every item the pass tried to notify is
    recorded as seen when the pass ends. *)
Theorem without_token_items_are_recorded_unsent {scr : Scraper} {fmt : Formatter}
    (searches : string -> outcome (list Item)) (os_environ : LineNotify.environ)
    (api : LineNotify.push -> outcome unit) (writes : string -> write_outcome)
    (self : Settings) (w : world) (kw : string) (it : Item) (sent : bool) :
  default EmptyString (LineNotify.LINE_CHANNEL_ACCESS_TOKEN os_environ) = EmptyString ->
  Notify kw it sent ∈ emitted (run (line_env searches os_environ api writes) self w) ->
  sent = false
  /\ get_item_id it
       ∈ mem (post (run (line_env searches os_environ api writes) self w)) !!! kw.
Proof.
  intros Htoken Hin. split.
  - apply run_notify_origin in Hin as (_ & _ & -> & _).
    cbn [line_env send_line_notification]. unfold delivered.
    destruct (format_notification_message it) as [message|]; [|done].
    by rewrite send_without_token.
  - by apply run_attempted_recorded, (attempts_elem kw it sent).
Qed.

Lemma without_token_items_are_recorded_unsent_witness :
  default EmptyString (LineNotify.LINE_CHANNEL_ACCESS_TOKEN no_token) = EmptyString
  /\ Notify "camera" (item "B" 80) false
       ∈ emitted (run (line_env (H := plain_formatter)
                         (search (env_of "camera" [item "A" 100; item "B" 80]))
                         no_token (fun _ => Returns tt) (fun _ => Written))
                    camera (mkWorld seen_A Absent))
  /\ get_item_id (item "B" 80)
       ∈ mem (post (run (line_env (H := plain_formatter)
                           (search (env_of "camera" [item "A" 100; item "B" 80]))
                           no_token (fun _ => Returns tt) (fun _ => Written))
                      camera (mkWorld seen_A Absent))) !!! "camera"%string.
Proof.
  assert (default EmptyString (LineNotify.LINE_CHANNEL_ACCESS_TOKEN no_token)
          = EmptyString) as Htoken by reflexivity.
  assert (Notify "camera" (item "B" 80) false
            ∈ emitted (run (line_env (H := plain_formatter)
                              (search (env_of "camera" [item "A" 100; item "B" 80]))
                              no_token (fun _ => Returns tt) (fun _ => Written))
                         camera (mkWorld seen_A Absent))) as Hin.
  { vm_compute. left. }
  split_and!; [exact Htoken|exact Hin|].
  exact (proj2 (without_token_items_are_recorded_unsent (fmt := plain_formatter)
                  _ _ _ _ _ _ _ _ _ Htoken Hin)).
Defined.

(** ** Reading the configuration ([main.py]) *)

(** X23.  [run_monitoring] does nothing at all (no history read, no search,
    no call) unless the configuration has a [yahoo] entry whose [enabled] is
    true; in particular when [config.json] is missing or cannot be parsed. *)
Theorem monitoring_needs_an_enabled_source (f : config_file) (env : pass_env)
    (w : world) :
  ((forall source, load_config f !! "yahoo"%string = Some source ->
                   cfg_enabled source ≠ Some true) ->
   run_monitoring (load_config f) env w = mkOut tt w [])
  /\ (f = NoConfig \/ f = BadConfig ->
      run_monitoring (load_config f) env w = mkOut tt w []).
Proof.
  assert ((forall source, load_config f !! "yahoo"%string = Some source ->
                          cfg_enabled source ≠ Some true) ->
          run_monitoring (load_config f) env w = mkOut tt w []) as Hmain.
  { intros Hoff. unfold run_monitoring. case_decide; [done|].
    rewrite bind_run. unfold create_scrapers.
    destruct (load_config f !! "yahoo"%string) as [source|] eqn:Hsrc; [|done].
    specialize (Hoff source eq_refl). by destruct (cfg_enabled source) as [[|]|]. }
  split; [exact Hmain|].
  intros Hf. apply Hmain. intros source.
  by destruct Hf as [-> | ->].
Qed.

Lemma monitoring_needs_an_enabled_source_witness :
  (forall source,
     load_config (Config {[ "yahoo"%string :=
                              mkSource (Some ["camera"%string]) None (Some false) ]})
       !! "yahoo"%string = Some source ->
     cfg_enabled source ≠ Some true)
  /\ run_monitoring
       (load_config (Config {[ "yahoo"%string :=
                                 mkSource (Some ["camera"%string]) None (Some false) ]}))
       (env_of "camera" [item "B" 80]) world_A
     = mkOut tt world_A []
  /\ run_monitoring (load_config BadConfig) (env_of "camera" [item "B" 80]) world_A
     = mkOut tt world_A [].
Proof.
  assert (forall source,
            load_config (Config {[ "yahoo"%string :=
                                     mkSource (Some ["camera"%string]) None (Some false) ]})
              !! "yahoo"%string = Some source ->
            cfg_enabled source ≠ Some true) as Hoff.
  { intros source Hsrc. vm_compute in Hsrc. injection Hsrc as <-. discriminate. }
  split_and!; [exact Hoff| |].
  - exact (proj1 (monitoring_needs_an_enabled_source _ _ _) Hoff).
  - apply (proj2 (monitoring_needs_an_enabled_source BadConfig _ _)). by right.
Defined.

(** ** What an incremental iteration records *)

(** X25.  In an incremental iteration the ids recorded are exactly the ids
    of the items notified: an item left out for its price is not recorded,
    and so is notified by a later pass once its price qualifies. *)
Theorem incremental_pass_records_exactly_the_notified {scr : Scraper}
    (env : pass_env) (self : Settings) (kw id : string) (w : world) :
  mem w !!! kw ≠ ∅ ->
  (id ∈ mem (post (run_keyword env self kw w)) !!! kw <->
   id ∈ mem w !!! kw
   \/ exists it sent,
        Notify kw it sent ∈ emitted (run_keyword env self kw w)
        /\ get_item_id it = id).
Proof.
  intros Hhist.
  assert (mem (post (run_keyword env self kw w)) !!! kw
          = ids_of (notified_items env self kw w) ∪ mem w !!! kw) as ->.
  { unfold notified_items. run_keyword_cases env self kw w; [done| |].
    - destruct (filter _ items) as [|x new_items]; cbn [post mem].
      + unfold ids_of. cbn. set_solver.
      + by rewrite lookup_total_insert_eq.
    - cbn [post]. unfold ids_of. cbn. set_solver. }
  rewrite elem_of_union, elem_of_ids_of. split.
  - intros [(Hid & it & Hit & Heq)|Hold]; [right|by left].
    exists it, (send_line_notification env it). split; [|done].
    by apply elem_of_run_keyword_notify.
  - intros [Hold|(it & sent & Hin & Heq)]; [by right|left].
    apply elem_of_run_keyword_notify in Hin as (_ & Hit & _).
    split; [|by exists it].
    apply notified_items_spec in Hit as [Hne _]. by rewrite <- Heq.
Qed.

Lemma incremental_pass_records_exactly_the_notified_witness :
  mem (mkWorld seen_A Absent) !!! "camera"%string ≠ (∅ : gset string)
  /\ ("C"%string ∉ mem (post (run_keyword (env_of "camera" [item "B" 80; item "C" 5])
                                camera "camera" (mkWorld seen_A Absent)))
                      !!! "camera"%string).
Proof.
  assert (mem (mkWorld seen_A Absent) !!! "camera"%string ≠ (∅ : gset string)) as Hne.
  { intros Heq. vm_compute in Heq. discriminate Heq. }
  split; [exact Hne|].
  intros Hin.
  apply (proj1 (incremental_pass_records_exactly_the_notified
                  (env_of "camera" [item "B" 80; item "C" 5]) camera "camera" "C"
                  (mkWorld seen_A Absent) Hne)) in Hin.
  destruct Hin as [Hold|(it & sent & Hin & Heq)].
  - apply (bool_decide_pack _) in Hold. vm_compute in Hold. exact Hold.
  - vm_compute in Hin.
    apply elem_of_cons in Hin as [Hin|Hin];
      [injection Hin as Hi _; subst it; vm_compute in Heq; discriminate Heq|].
    apply elem_of_cons in Hin as [Hin|Hin]; [discriminate Hin|].
    apply elem_of_cons in Hin as [Hin|Hin]; [discriminate Hin|].
    apply list_elem_of_singleton in Hin. discriminate Hin.
Defined.

(** The item C, too cheap in one pass, is notified in the next when its
    price has risen. *)
Example cheap_item_is_notified_when_its_price_rises :
  emitted (run (env_of "camera" [item "C" 50]) camera
             (post (run (env_of "camera" [item "B" 80; item "C" 5]) camera
                      (mkWorld seen_A Absent))))
  = [Notify "camera" (item "C" 50) true; Add "camera" "C"; Save Written; Sleep].
Proof. vm_compute. reflexivity. Qed.

(** ** Notifications of the Yahoo scraper, end to end *)

(** X26.  Whatever the site answers, an item the Yahoo scraper tries to
    notify has a non-empty title and URL, an id of characters of
    [[a-z0-9]] that is what the URL pattern extracts from its URL, and a
    price above 0 and not below [min_price]. *)
Theorem yahoo_notifies_only_complete_items {py : Interpreter}
    (site : string -> YahooParser.response) (sends : Item -> bool)
    (writes : string -> write_outcome) (self : Settings) (w : world)
    (kw : string) (it : Item) (sent : bool) :
  Notify kw it sent
    ∈ emitted (run (scr := Yahoo.scraper) (yahoo_env site sends writes) self w) ->
  (exists t u,
     title it = Some t /\ t ≠ EmptyString
     /\ url it = Some u /\ u ≠ EmptyString
     /\ Yahoo.get_item_id it = Yahoo._extract_item_id_from_url u)
  /\ Yahoo.get_item_id it ≠ EmptyString
  /\ string_forall Yahoo.is_id_char (Yahoo.get_item_id it) = true
  /\ 0 < Yahoo.get_price it
  /\ min_price self <= Yahoo.get_price it.
Proof.
  intros (_ & _ & _ & w' & _ & Hit)%run_notify_origin.
  unfold notified_items in Hit. cbn [yahoo_env search] in Hit.
  case_decide; [by apply elem_of_nil in Hit|].
  apply list_elem_of_filter in Hit as [Hcand Hin].
  apply is_candidate_true in Hcand as (Hid & _ & Hp0 & Hpmin).
  cbn [get_item_id get_price Yahoo.scraper] in Hid, Hp0, Hpmin.
  assert (well_formed it) as (t & u & Ht & Htne & Hu & Hune & Hprice & Hidu).
  { destruct (site kw) as [|html]; [by apply elem_of_nil in Hin|].
    by apply (proj1 (Forall_forall _ _) (parse_well_formed html)). }
  split_and!; [by exists t, u|done| |lia|done].
  rewrite Hidu. apply extract_chars.
Qed.

Lemma yahoo_notifies_only_complete_items_witness :
  Notify "camera"
    (mkItem (Some "Camera"%string)
            (Some "https://auctions.yahoo.co.jp/jp/auction/x1234567"%string)
            (Some 1000) (Some "x1234567"%string)) true
    ∈ emitted (run (scr := Yahoo.scraper)
                 (yahoo_env (fun _ => YahooParser.Body (Returns page_of_products))
                    (fun _ => true) (fun _ => Written))
                 camera (mkWorld seen_A Absent))
  /\ 0 < Yahoo.get_price
           (mkItem (Some "Camera"%string)
                   (Some "https://auctions.yahoo.co.jp/jp/auction/x1234567"%string)
                   (Some 1000) (Some "x1234567"%string)).
Proof.
  assert (Notify "camera"
            (mkItem (Some "Camera"%string)
                    (Some "https://auctions.yahoo.co.jp/jp/auction/x1234567"%string)
                    (Some 1000) (Some "x1234567"%string)) true
            ∈ emitted (run (scr := Yahoo.scraper)
                         (yahoo_env (fun _ => YahooParser.Body (Returns page_of_products))
                            (fun _ => true) (fun _ => Written))
                         camera (mkWorld seen_A Absent))) as Hin.
  { vm_compute. left. }
  split; [exact Hin|].
  by destruct (yahoo_notifies_only_complete_items _ _ _ _ _ _ _ _ Hin)
    as (_ & _ & _ & Hpos & _).
Defined.
